(** * EasierBanking: recurring-pattern detection, liquidity projection and
      safe-to-spend, embedded from [src/utils/recurringTransactions.ts] and
      [src/utils/safeToSpend.ts].

    Modelling conventions.
    - A JavaScript [number] holding money is an exact rational ([Q]); a
      number holding a count of days is an integer ([Z]).  The two places
      where the automatic detector divides by a quantity that can be zero
      (the mean interval and the per-gap deviation) are computed in the
      type [number], which adds [NaN] and the two infinities to [Q].
    - A date string is modelled by the instant it denotes, in milliseconds
      since the epoch, read in the UTC time zone (so a calendar day is
      exactly [msPerDay] long and [new Date(s)] and [parseISO(s)] agree).
    - The date-fns helpers ([differenceInDays], [addDays], [addMonths],
      [lastDayOfMonth], [getDate], [isBefore], [isAfter]) are an external
      library; they are modelled after their documented behaviour.
    - [new Date()] is the parameter [now].
    - A [while] loop takes a [fuel] argument and answers [None] when the fuel
      runs out before the loop condition turns false. *)

From Stdlib Require Import ZArith QArith Qround Qminmax Qabs Lqa.
From Stdlib Require Import List String Ascii Bool Lia Permutation Sorted.
Import ListNotations.

Local Open Scope Z_scope.

(** ** JavaScript numbers with their special values *)

Inductive number : Type :=
| Fin (q : Q)
| NaN
| PosInf
| NegInf.

(** Sign of a rational as a comparison with zero. *)
Definition Qsign (q : Q) : comparison := (q ?= 0)%Q.

(** [a - b] *)
Definition nsub (a b : number) : number :=
  match a, b with
  | NaN, _ | _, NaN => NaN
  | Fin x, Fin y => Fin (x - y)
  | Fin _, PosInf => NegInf
  | Fin _, NegInf => PosInf
  | PosInf, PosInf => NaN
  | PosInf, _ => PosInf
  | NegInf, NegInf => NaN
  | NegInf, _ => NegInf
  end.

(** [Math.abs(a)] *)
Definition nabs (a : number) : number :=
  match a with
  | Fin x => Fin (Qabs x)
  | NaN => NaN
  | PosInf | NegInf => PosInf
  end.

(** [a / b]; a zero divisor is the positive zero (every divisor of the
    detector is a length or a mean of such a quotient). *)
Definition ndiv (a b : number) : number :=
  match a, b with
  | NaN, _ | _, NaN => NaN
  | Fin x, Fin y =>
      match Qsign y with
      | Eq => match Qsign x with Eq => NaN | Gt => PosInf | Lt => NegInf end
      | _ => Fin (x / y)
      end
  | Fin _, _ => Fin 0
  | PosInf, Fin y => match Qsign y with Lt => NegInf | _ => PosInf end
  | NegInf, Fin y => match Qsign y with Lt => PosInf | _ => NegInf end
  | _, _ => NaN
  end.

(** [a < q] and [a > q] against a finite literal; every comparison with
    [NaN] is false. *)
Definition nlt (a : number) (q : Q) : bool :=
  match a with
  | Fin x => negb (Qle_bool q x)
  | NegInf => true
  | _ => false
  end.

Definition ngt (a : number) (q : Q) : bool :=
  match a with
  | Fin x => negb (Qle_bool x q)
  | PosInf => true
  | _ => false
  end.

(** Strict and large comparisons of rationals as booleans. *)
Definition Qlt_bool (a b : Q) : bool := negb (Qle_bool b a).

(** [Math.round]: nearest integer, a tie going up. *)
Definition Math_round (q : Q) : Z := Qfloor (q + (1 # 2)).

Definition Qsum (l : list Q) : Q := fold_left Qplus l 0%Q.
Definition Zsum (l : list Z) : Z := fold_left Z.add l 0.

(** [Math.max(...l)] and [Math.min(...l)] for a list that is not empty
    (on no argument JavaScript answers an infinity; the detector never
    calls them so). *)
Definition Math_max (l : list Q) : Q :=
  match l with
  | [] => 0%Q
  | a :: r => fold_left Qmax r a
  end.

Definition Math_min (l : list Q) : Q :=
  match l with
  | [] => 0%Q
  | a :: r => fold_left Qmin r a
  end.

(** ** Strings *)

Definition code (c : ascii) : nat := nat_of_ascii c.

Definition isDigit (c : ascii) : bool :=
  (48 <=? code c)%nat && (code c <=? 57)%nat.

Definition isUpper (c : ascii) : bool :=
  (65 <=? code c)%nat && (code c <=? 90)%nat.

Definition isLower (c : ascii) : bool :=
  (97 <=? code c)%nat && (code c <=? 122)%nat.

(** [\w] *)
Definition isWord (c : ascii) : bool :=
  isDigit c || isUpper c || isLower c || (code c =? 95)%nat.

(** [\s], on ASCII: space, tab, line feed, vertical tab, form feed,
    carriage return. *)
Definition isSpace (c : ascii) : bool :=
  (code c =? 32)%nat || ((9 <=? code c)%nat && (code c <=? 13)%nat).

Definition lowerChar (c : ascii) : ascii :=
  if isUpper c then ascii_of_nat (code c + 32) else c.

Fixpoint toLowerCase (s : string) : string :=
  match s with
  | EmptyString => EmptyString
  | String c r => String (lowerChar c) (toLowerCase r)
  end.

Fixpoint keepChars (p : ascii -> bool) (s : string) : string :=
  match s with
  | EmptyString => EmptyString
  | String c r => if p c then String c (keepChars p r) else keepChars p r
  end.

Fixpoint trimStart (s : string) : string :=
  match s with
  | EmptyString => EmptyString
  | String c r => if isSpace c then trimStart r else s
  end.

Fixpoint trimEnd (s : string) : string :=
  match s with
  | EmptyString => EmptyString
  | String c r =>
      match trimEnd r with
      | EmptyString => if isSpace c then EmptyString else String c EmptyString
      | r' => String c r'
      end
  end.

Definition trim (s : string) : string := trimEnd (trimStart s).

(** [s.includes(p)] *)
Fixpoint includes (s p : string) : bool :=
  prefix p s ||
  match s with
  | EmptyString => false
  | String _ r => includes r p
  end.

(** [normalizeDescription]: lower-case, drop the digits, drop what is
    neither a word character nor white space, trim, keep 30 characters. *)
Definition normalizeDescription (description : string) : string :=
  substring 0 30
    (trim
       (keepChars (fun c => isWord c || isSpace c)
          (keepChars (fun c => negb (isDigit c))
             (toLowerCase description)))).

(** ** Instants and the calendar *)

Definition instant : Type := Z.

Definition msPerDay : Z := 86400000.

Definition dayNumber (t : instant) : Z := t / msPerDay.
Definition timeOfDay (t : instant) : Z := t mod msPerDay.

(** Year, month (1..12) and day of the month of a day number counted from
    1970-01-01, in the proleptic Gregorian calendar. *)
Definition civil_from_days (z : Z) : Z * Z * Z :=
  let z := z + 719468 in
  let era := z / 146097 in
  let doe := z - era * 146097 in
  let yoe := (doe - doe / 1460 + doe / 36524 - doe / 146096) / 365 in
  let y := yoe + era * 400 in
  let doy := doe - (365 * yoe + yoe / 4 - yoe / 100) in
  let mp := (5 * doy + 2) / 153 in
  let d := doy - (153 * mp + 2) / 5 + 1 in
  let m := if mp <? 10 then mp + 3 else mp - 9 in
  ((if m <=? 2 then y + 1 else y), m, d).

Definition days_from_civil (y m d : Z) : Z :=
  let y := if m <=? 2 then y - 1 else y in
  let era := y / 400 in
  let yoe := y - era * 400 in
  let doy := (153 * (if 2 <? m then m - 3 else m + 9) + 2) / 5 + d - 1 in
  let doe := yoe * 365 + yoe / 4 - yoe / 100 + doy in
  era * 146097 + doe - 719468.

(** [parseISO] of a date-only string [yyyy-mm-dd]. *)
Definition isoDate (y m d : Z) : instant := days_from_civil y m d * msPerDay.

Definition getFullYear (t : instant) : Z := fst (fst (civil_from_days (dayNumber t))).
(** Month of the year, January being 0 as in JavaScript. *)
Definition getMonth (t : instant) : Z := snd (fst (civil_from_days (dayNumber t))) - 1.
Definition getDate (t : instant) : Z := snd (civil_from_days (dayNumber t)).

(** The instant with the calendar fields [y], month index [m0] (any
    integer, carried into the year) and day [d] (0 is the last day of the
    month before), keeping the time of day of [t]: [setFullYear(y, m0, d)]. *)
Definition setFullYear (t : instant) (y m0 d : Z) : instant :=
  let total := y * 12 + m0 in
  (days_from_civil (total / 12) (total mod 12 + 1) 1 + (d - 1)) * msPerDay + timeOfDay t.

Definition startOfDay (t : instant) : instant := dayNumber t * msPerDay.

Definition lastDayOfMonth (t : instant) : instant :=
  startOfDay (setFullYear t (getFullYear t) (getMonth t + 1) 0).

Definition addMonths (t : instant) (amount : Z) : instant :=
  let dayOfMonth := getDate t in
  let endOfDesiredMonth := setFullYear t (getFullYear t) (getMonth t + amount + 1) 0 in
  let daysInMonth := getDate endOfDesiredMonth in
  if daysInMonth <=? dayOfMonth then endOfDesiredMonth
  else setFullYear t (getFullYear endOfDesiredMonth) (getMonth endOfDesiredMonth) dayOfMonth.

Definition addDays (t : instant) (n : Z) : instant := t + n * msPerDay.

(** Full days from [b] to [a], truncated toward zero. *)
Definition differenceInDays (a b : instant) : Z := Z.quot (a - b) msPerDay.

Definition isBefore (a b : instant) : bool := a <? b.
Definition isAfter (a b : instant) : bool := b <? a.


(** ** Data model *)

Inductive TxType : Type := DEBIT | CREDIT.

Definition TxType_eqb (a b : TxType) : bool :=
  match a, b with
  | DEBIT, DEBIT | CREDIT, CREDIT => true
  | _, _ => false
  end.

(** [Transaction] of [types/banking.ts], with the fields the engine reads. *)
Record Transaction : Type := {
  tx_id : string;
  tradeDate : instant;
  tx_description : string;
  tx_amount : Q;
  tx_type : TxType;
  tx_category : string
}.

(** [ManualRecurringRule] of [types/recurringRules.ts]; an optional field
    is an [option] ([None] for [undefined]). *)
Record ManualRecurringRule : Type := {
  rule_id : string;
  rule_type : TxType;
  descriptionPattern : string;
  rule_category : option string;
  dayRangeStart : option Z;
  dayRangeEnd : option Z;
  rule_intervalDays : option Z;
  expectedAmount : option Q;
  amountTolerance : option Q;
  useAverage : bool;
  enabled : bool;
  rule_isExclude : option bool
}.

Inductive Frequency : Type := weekly | bi_weekly | monthly | quarterly | yearly.

Record RecurringTransaction : Type := {
  description : string;
  category : string;
  amount : Q;
  frequency : Frequency;
  intervalDays : Z;
  lastCharged : instant;
  occurrences : Z;
  transactionIds : list string;
  isExclude : option bool;
  ruleId : option string
}.

(** Truthiness of the optional fields, as [if (x)] and [x || y] read them. *)
Definition truthyString (s : string) : bool := negb (String.eqb s EmptyString).

Definition truthyOptString (o : option string) : bool :=
  match o with Some s => truthyString s | None => false end.

Definition truthyZ (o : option Z) : bool :=
  match o with Some z => negb (z =? 0) | None => false end.

Definition truthyQ (o : option Q) : bool :=
  match o with Some q => negb (Qeq_bool q 0) | None => false end.

Definition truthyBool (o : option bool) : bool :=
  match o with Some b => b | None => false end.

(** [o || d] *)
Definition orZ (o : option Z) (d : Z) : Z :=
  match o with Some z => if z =? 0 then d else z | None => d end.

Definition orQ (o : option Q) (d : Q) : Q :=
  match o with Some q => if Qeq_bool q 0 then d else q | None => d end.

Definition orString (o : option string) (d : string) : string :=
  match o with Some s => if String.eqb s EmptyString then d else s | None => d end.

(** ** Sorting and grouping *)

Section StableSort.
Context {A : Type}.
(** [before a b]: the comparator of [Array.prototype.sort] answers a
    value [<= 0] on [(a, b)], so [a] may stay in front of [b]. *)
Variable before : A -> A -> bool.

Fixpoint insertSorted (x : A) (l : list A) : list A :=
  match l with
  | [] => [x]
  | y :: r => if before x y then x :: l else y :: insertSorted x r
  end.

(** [Array.prototype.sort] is stable: equal elements keep their order. *)
Fixpoint stableSort (l : list A) : list A :=
  match l with
  | [] => []
  | x :: r => insertSorted x (stableSort r)
  end.
End StableSort.

Definition byDate (a b : Transaction) : bool := tradeDate a <=? tradeDate b.

(** The comparator [(a, b) => b.amount - a.amount]. *)
Definition byAmountDesc (a b : RecurringTransaction) : bool :=
  Qle_bool (amount b) (amount a).

(** The [Map] from a normalized description to its transactions, keys in
    order of first insertion. *)
Definition Groups : Type := list (string * list Transaction).

Fixpoint pushToGroup (key : string) (t : Transaction) (groups : Groups) : Groups :=
  match groups with
  | [] => [(key, [t])]
  | (k, txns) :: rest =>
      if String.eqb k key then (k, txns ++ [t]) :: rest
      else (k, txns) :: pushToGroup key t rest
  end.

Definition descriptionGroups (sorted : list Transaction) : Groups :=
  fold_left (fun groups t => pushToGroup (normalizeDescription (tx_description t)) t groups)
    sorted [].

(** ** Frequency bands *)

Definition determineFrequency (avgDays : Q) : Frequency :=
  if Qle_bool avgDays 9 then weekly
  else if Qle_bool avgDays 16 then bi_weekly
  else if Qle_bool avgDays 35 then monthly
  else if Qle_bool avgDays 100 then quarterly
  else yearly.

(** Day gaps between consecutive transactions of a list. *)
Fixpoint intervalsOf (txns : list Transaction) : list Z :=
  match txns with
  | a :: ((b :: _) as r) => differenceInDays (tradeDate b) (tradeDate a) :: intervalsOf r
  | _ => []
  end.

(** [l.slice(-n)] *)
Definition sliceLast {A : Type} (n : nat) (l : list A) : list A :=
  skipn (List.length l - n) l.

(** [l[l.length - 1]] *)
Definition lastOf {A : Type} (l : list A) : option A :=
  match rev l with
  | [] => None
  | x :: _ => Some x
  end.

(** ** Manual rule matcher: [detectManualRecurringTransactions] *)

(** The filter predicate of a rule. *)
Definition matchesRule (rule : ManualRecurringRule) (t : Transaction) : bool :=
  if negb (TxType_eqb (tx_type t) (rule_type rule)) then false
  else
    let tDesc := normalizeDescription (tx_description t) in
    let pDesc := normalizeDescription (descriptionPattern rule) in
    if negb (includes tDesc pDesc)
       && negb (includes (toLowerCase (tx_description t))
                         (toLowerCase (descriptionPattern rule)))
    then false
    else if truthyOptString (rule_category rule)
            && negb (String.eqb (tx_category t) (orString (rule_category rule) EmptyString))
    then false
    else if (truthyZ (dayRangeStart rule) || truthyZ (dayRangeEnd rule))
            && (let day := getDate (tradeDate t) in
                (truthyZ (dayRangeStart rule) && (day <? orZ (dayRangeStart rule) 0))
                || (truthyZ (dayRangeEnd rule) && (orZ (dayRangeEnd rule) 0 <? day)))
    then false
    else
      match expectedAmount rule, amountTolerance rule with
      | Some expected, Some tolerance =>
          if truthyQ (Some expected)
             && Qlt_bool (expected * tolerance) (Qabs (tx_amount t - expected))
          then false else true
      | _, _ => true
      end.

(** The entry pushed for a rule that matched nothing. *)
Definition projectedEntry (now : instant) (rule : ManualRecurringRule) : RecurringTransaction :=
  {| description := String.append "Manual: " (descriptionPattern rule);
     category := orString (rule_category rule) "Uncategorized";
     amount := orQ (expectedAmount rule) 0;
     frequency := if truthyZ (rule_intervalDays rule)
                  then determineFrequency (inject_Z (orZ (rule_intervalDays rule) 0))
                  else monthly;
     intervalDays := orZ (rule_intervalDays rule) 30;
     lastCharged := now;
     occurrences := 0;
     transactionIds := [];
     isExclude := None;
     ruleId := Some (rule_id rule) |}.

(** The entry pushed for an exclusion rule with matches. *)
Definition exclusionEntry (rule : ManualRecurringRule) (matched : list Transaction)
    (lastTransaction : Transaction) : RecurringTransaction :=
  {| description := String.append "Excluded: " (descriptionPattern rule);
     category := tx_category lastTransaction;
     amount := 0;
     frequency := monthly;
     intervalDays := 0;
     lastCharged := tradeDate lastTransaction;
     occurrences := Z.of_nat (List.length matched);
     transactionIds := map tx_id matched;
     isExclude := Some true;
     ruleId := Some (rule_id rule) |}.

(** The entry pushed for an ordinary rule with matches. *)
Definition matchedEntry (rule : ManualRecurringRule) (matched : list Transaction)
    (lastTransaction : Transaction) : RecurringTransaction :=
  let intervals := intervalsOf matched in
  let avgInterval : Q :=
    if truthyZ (rule_intervalDays rule) then inject_Z (orZ (rule_intervalDays rule) 0)
    else if (0 <? List.length intervals)%nat
         then (inject_Z (Zsum intervals) / inject_Z (Z.of_nat (List.length intervals)))%Q
         else 30%Q in
  let amounts := map tx_amount matched in
  let avgAmount := (Qsum amounts / inject_Z (Z.of_nat (List.length amounts)))%Q in
  {| description := String.append "Manual: " (descriptionPattern rule);
     category := orString (rule_category rule) (tx_category lastTransaction);
     amount := if useAverage rule then avgAmount
               else orQ (expectedAmount rule) (tx_amount lastTransaction);
     frequency := determineFrequency avgInterval;
     intervalDays := Math_round avgInterval;
     lastCharged := tradeDate lastTransaction;
     occurrences := Z.of_nat (List.length matched);
     transactionIds := map tx_id matched;
     isExclude := None;
     ruleId := Some (rule_id rule) |}.

(** The body of the [forEach] over the enabled rules: what one rule pushes
    to [results]. *)
Definition ruleResults (now : instant) (transactions : list Transaction)
    (rule : ManualRecurringRule) : list RecurringTransaction :=
  let matched := filter (matchesRule rule) transactions in
  match matched with
  | [] =>
      let transactionsHaveType :=
        match transactions with
        | [] => true
        | t0 :: _ => TxType_eqb (tx_type t0) (rule_type rule)
        end in
      if transactionsHaveType
         && (truthyQ (expectedAmount rule) || truthyString (descriptionPattern rule))
      then [projectedEntry now rule]
      else []
  | _ :: _ =>
      let matched := stableSort byDate matched in
      match lastOf matched with
      | None => []
      | Some lastTransaction =>
          if truthyBool (rule_isExclude rule)
          then [exclusionEntry rule matched lastTransaction]
          else [matchedEntry rule matched lastTransaction]
      end
  end.

Definition detectManualRecurringTransactions (now : instant)
    (transactions : list Transaction) (rules : list ManualRecurringRule)
    : list RecurringTransaction :=
  flat_map (ruleResults now transactions) (filter enabled rules).

(** ** Automatic pattern detector *)

Definition avgIntervalOf (intervals : list Z) : number :=
  ndiv (Fin (inject_Z (Zsum intervals)))
       (Fin (inject_Z (Z.of_nat (List.length intervals)))).

(** [intervals.map(i => Math.abs(i - avgInterval) / avgInterval)] *)
Definition varianceOf (intervals : list Z) (avgInterval : number) : list number :=
  map (fun i => ndiv (nabs (nsub (Fin (inject_Z i)) avgInterval)) avgInterval) intervals.

Definition isConsistent (variance : list number) : bool :=
  forallb (fun v => nlt v (2 # 10)) variance.

(** The representative amount of a surviving group. *)
Definition representativeAmount (txns : list Transaction) (lastTransaction : Transaction) : Q :=
  let maxOccurrencesForAverage := 12%nat in
  let recentTransactions := sliceLast maxOccurrencesForAverage txns in
  let amounts := map tx_amount txns in
  let recentAmounts := map tx_amount recentTransactions in
  let avgAmount := (Qsum recentAmounts / inject_Z (Z.of_nat (List.length recentAmounts)))%Q in
  let amountVariance := (Math_max amounts - Math_min amounts)%Q in
  let hasVariableAmount := Qlt_bool (avgAmount * (1 # 10)) amountVariance in
  if hasVariableAmount then avgAmount else tx_amount lastTransaction.

(** The body of [descriptionGroups.forEach]: [None] where the callback
    returns without pushing, [Some] of the entry it pushes otherwise. *)
Definition analyzeGroup (now : instant) (minOccurrences : Z) (txns : list Transaction)
    : option RecurringTransaction :=
  if Z.of_nat (List.length txns) <? minOccurrences then None
  else
    let intervals := intervalsOf txns in
    let avgInterval := avgIntervalOf intervals in
    let variance := varianceOf intervals avgInterval in
    if isConsistent variance && ngt avgInterval 0 then
      match avgInterval, lastOf txns with
      | Fin avg, Some lastTransaction =>
          let daysSinceLastOccurrence := differenceInDays now (tradeDate lastTransaction) in
          let isStale := Qlt_bool (avg * 2) (inject_Z daysSinceLastOccurrence) in
          if isStale then None
          else Some
            {| description := tx_description lastTransaction;
               category := tx_category lastTransaction;
               amount := representativeAmount txns lastTransaction;
               frequency := determineFrequency avg;
               intervalDays := Math_round avg;
               lastCharged := tradeDate lastTransaction;
               occurrences := Z.of_nat (List.length txns);
               transactionIds := map tx_id txns;
               isExclude := None;
               ruleId := None |}
      | _, _ => None
      end
    else None.

Definition optionToList {A : Type} (o : option A) : list A :=
  match o with Some a => [a] | None => [] end.

(** What the groups push to [recurring], in the order of the groups. *)
Definition automaticResults (now : instant) (minOccurrences : Z) (groups : Groups)
    : list RecurringTransaction :=
  flat_map (fun g => optionToList (analyzeGroup now minOccurrences (snd g))) groups.

Definition remainingTransactions (manualResults : list RecurringTransaction)
    (transactions : list Transaction) : list Transaction :=
  let matchedIds := flat_map transactionIds manualResults in
  filter (fun t => negb (existsb (String.eqb (tx_id t)) matchedIds)) transactions.

Definition detectRecurringTransactions (now : instant) (transactions : list Transaction)
    (minOccurrences : Z) (manualRules : list ManualRecurringRule)
    : list RecurringTransaction :=
  let manualResults := detectManualRecurringTransactions now transactions manualRules in
  let remaining := remainingTransactions manualResults transactions in
  let sorted := stableSort byDate remaining in
  let recurring := automaticResults now minOccurrences (descriptionGroups sorted) in
  let activeManualResults := filter (fun m => negb (truthyBool (isExclude m))) manualResults in
  stableSort byAmountDesc (activeManualResults ++ recurring).

(** ** Liquidity event projector: [projectLiquidity] *)

Inductive EventType : Type := income | expense.

Record Event : Type := {
  ev_type : EventType;
  ev_description : string;
  ev_amount : Q
}.

(** The key [yyyy-mm-dd] of [getDateKey], as its three numbers. *)
Definition DateKey : Type := (Z * Z * Z)%type.

Definition getDateKey (date : instant) : DateKey :=
  (getFullYear date, getMonth date + 1, getDate date).

Definition DateKey_eqb (a b : DateKey) : bool :=
  let '(y1, m1, d1) := a in
  let '(y2, m2, d2) := b in
  (y1 =? y2) && (m1 =? m2) && (d1 =? d2).

(** The [Map] from a date key to the events of that day. *)
Definition Events : Type := list (DateKey * list Event).

Fixpoint pushEvent (key : DateKey) (ev : Event) (events : Events) : Events :=
  match events with
  | [] => [(key, [ev])]
  | (k, evs) :: rest =>
      if DateKey_eqb k key then (k, evs ++ [ev]) :: rest
      else (k, evs) :: pushEvent key ev rest
  end.

(** [events.get(key) || []] *)
Fixpoint eventsOn (key : DateKey) (events : Events) : list Event :=
  match events with
  | [] => []
  | (k, evs) :: rest => if DateKey_eqb k key then evs else eventsOn key rest
  end.

(** The loop of a rule-backed entry: one event on the last day of each
    month while the date is within the horizon. *)
Fixpoint projectMonthEnds (fuel : nat) (startDate : instant) (daysToProject : Z)
    (ev : Event) (nextDate : instant) (events : Events) : option Events :=
  if differenceInDays nextDate startDate <=? daysToProject then
    match fuel with
    | O => None
    | S fuel' =>
        projectMonthEnds fuel' startDate daysToProject ev
          (lastDayOfMonth (addMonths nextDate 1))
          (pushEvent (getDateKey nextDate) ev events)
    end
  else Some events.

(** The loop of an automatic entry: step by [intervalDays], an event on
    each date that is not before the start. *)
Fixpoint projectInterval (fuel : nat) (startDate : instant) (daysToProject : Z)
    (interval : Z) (ev : Event) (nextDate : instant) (events : Events) : option Events :=
  if differenceInDays nextDate startDate <=? daysToProject then
    match fuel with
    | O => None
    | S fuel' =>
        projectInterval fuel' startDate daysToProject interval ev
          (addDays nextDate interval)
          (if startDate <=? nextDate
           then pushEvent (getDateKey nextDate) ev events
           else events)
    end
  else Some events.

(** The body of [recurringIncomes.forEach] and of
    [recurringExpenses.forEach], which differ by the event type only. *)
Definition projectEntry (fuel : nat) (startDate : instant) (daysToProject : Z)
    (kind : EventType) (entry : RecurringTransaction) (events : Events) : option Events :=
  let ev := {| ev_type := kind;
               ev_description := description entry;
               ev_amount := amount entry |} in
  if truthyOptString (ruleId entry) then
    let nextDate := lastDayOfMonth startDate in
    let nextDate := if nextDate <? startDate
                    then lastDayOfMonth (addMonths nextDate 1)
                    else nextDate in
    projectMonthEnds fuel startDate daysToProject ev nextDate events
  else
    let lastDate := lastCharged entry in
    let nextDate := addDays lastDate (intervalDays entry) in
    projectInterval fuel startDate daysToProject (intervalDays entry) ev nextDate events.

Fixpoint projectEntries (fuel : nat) (startDate : instant) (daysToProject : Z)
    (kind : EventType) (entries : list RecurringTransaction) (events : Events)
    : option Events :=
  match entries with
  | [] => Some events
  | entry :: rest =>
      match projectEntry fuel startDate daysToProject kind entry events with
      | None => None
      | Some events' => projectEntries fuel startDate daysToProject kind rest events'
      end
  end.

Record LiquidityForecast : Type := {
  date : DateKey;
  projectedBalance : Q;
  event : option Event
}.

Definition applyEvent (balance : Q) (ev : Event) : Q :=
  match ev_type ev with
  | income => (balance + ev_amount ev)%Q
  | expense => (balance - ev_amount ev)%Q
  end.

(** The day-by-day loop, over the day offsets still to visit. *)
Fixpoint buildForecast (startDate : instant) (events : Events) (days : list Z)
    (balance : Q) : list LiquidityForecast :=
  match days with
  | [] => []
  | day :: rest =>
      let currentDate := addDays startDate day in
      let dateKey := getDateKey currentDate in
      let dayEvents := eventsOn dateKey events in
      let balance := fold_left applyEvent dayEvents balance in
      {| date := dateKey;
         projectedBalance := balance;
         event := hd_error dayEvents |}
      :: buildForecast startDate events rest balance
  end.

(** The offsets [0, 1, ..., daysToProject]. *)
Definition dayOffsets (daysToProject : Z) : list Z :=
  map Z.of_nat (seq 0 (Z.to_nat (daysToProject + 1))).

Definition projectLiquidity (fuel : nat) (currentBalance : Q)
    (recurringIncomes recurringExpenses : list RecurringTransaction)
    (daysToProject : Z) (startDate : instant) : option (list LiquidityForecast) :=
  match projectEntries fuel startDate daysToProject income recurringIncomes [] with
  | None => None
  | Some events =>
      match projectEntries fuel startDate daysToProject expense recurringExpenses events with
      | None => None
      | Some events =>
          Some (buildForecast startDate events (dayOffsets daysToProject) currentBalance)
      end
  end.

(** ** Safe-to-spend calculator: [calculateSafeToSpend] *)

Record SafeToSpendDetails : Type := {
  safeToSpend : Q;
  reservedForBills : Q;
  daysUntilPayday : Z;
  nextPayday : instant;
  sts_buffer : Q;
  totalBalance : Q
}.

(** [while (isBefore(d, now)) d = addDays(d, intervalDays)] *)
Fixpoint nextOccurrenceFrom (fuel : nat) (now : instant) (interval : Z) (d : instant)
    : option instant :=
  if isBefore d now then
    match fuel with
    | O => None
    | S fuel' => nextOccurrenceFrom fuel' now interval (addDays d interval)
    end
  else Some d.

(** The [forEach] that adds up the bills due up to the next payday. *)
Fixpoint reserveBills (fuel : nat) (now nextPaydayDate : instant)
    (recurringExpenses : list RecurringTransaction) (reserved : Q) : option Q :=
  match recurringExpenses with
  | [] => Some reserved
  | bill :: rest =>
      match nextOccurrenceFrom fuel now (intervalDays bill) (lastCharged bill) with
      | None => None
      | Some nextOccurrence =>
          reserveBills fuel now nextPaydayDate rest
            (if negb (isAfter nextOccurrence nextPaydayDate)
             then (reserved + amount bill)%Q
             else reserved)
      end
  end.

Definition nextPaydayOf (fuel : nat) (now : instant)
    (recurringIncomes : list RecurringTransaction) : option instant :=
  match hd_error (stableSort byAmountDesc recurringIncomes) with
  | None => Some (addDays now 30)
  | Some mainPayday =>
      nextOccurrenceFrom fuel now (intervalDays mainPayday) (lastCharged mainPayday)
  end.

Definition isCredit (t : Transaction) : bool := TxType_eqb (tx_type t) CREDIT.
Definition isDebit (t : Transaction) : bool := TxType_eqb (tx_type t) DEBIT.

Definition calculateSafeToSpend (fuel : nat) (now : instant) (currentBalance : Q)
    (transactions : list Transaction) (manualRules : list ManualRecurringRule)
    (buffer : Q) : option SafeToSpendDetails :=
  let recurringIncomes :=
    detectRecurringTransactions now (filter isCredit transactions) 2 manualRules in
  let recurringExpenses :=
    detectRecurringTransactions now (filter isDebit transactions) 2 manualRules in
  match nextPaydayOf fuel now recurringIncomes with
  | None => None
  | Some nextPaydayDate =>
      match reserveBills fuel now nextPaydayDate recurringExpenses 0 with
      | None => None
      | Some reserved =>
          let daysUntil := differenceInDays nextPaydayDate now in
          Some {| safeToSpend := Qmax 0 (currentBalance - reserved - buffer);
                  reservedForBills := reserved;
                  daysUntilPayday := Z.max 0 daysUntil;
                  nextPayday := nextPaydayDate;
                  sts_buffer := buffer;
                  totalBalance := currentBalance |}
      end
  end.

(** ** Concrete inputs used by the examples below *)

Module Sample.
Local Open Scope string_scope.

Definition tx (i : string) (d : instant) (desc : string) (a : Q) (ty : TxType)
    : Transaction :=
  {| tx_id := i; tradeDate := d; tx_description := desc; tx_amount := a;
     tx_type := ty; tx_category := "General" |}.

Definition rule (i pattern : string) (ty : TxType) (excl : option bool)
    : ManualRecurringRule :=
  {| rule_id := i; rule_type := ty; descriptionPattern := pattern;
     rule_category := None; dayRangeStart := None; dayRangeEnd := None;
     rule_intervalDays := None; expectedAmount := None; amountTolerance := None;
     useAverage := false; enabled := true; rule_isExclude := excl |}.

(** Noon of 2024-02-20. *)
Definition now : instant := isoDate 2024 2 20 + 12 * 3600 * 1000.

(** Three monthly charges of 49. *)
Definition gym : list Transaction :=
  [ tx "g1" (isoDate 2023 12 1) "Gym Membership 1" 49 DEBIT;
    tx "g2" (isoDate 2024 1 1) "Gym Membership 22" 49 DEBIT;
    tx "g3" (isoDate 2024 2 1) "GYM membership" 49 DEBIT ].

(** Three monthly charges of 300. *)
Definition rent : list Transaction :=
  [ tx "r1" (isoDate 2023 12 1) "Rent" 300 DEBIT;
    tx "r2" (isoDate 2024 1 1) "Rent" 300 DEBIT;
    tx "r3" (isoDate 2024 2 1) "Rent" 300 DEBIT ].

(** Two charges on the same day. *)
Definition sameDay : list Transaction :=
  [ tx "a" (isoDate 2024 1 1) "GYM" 49 DEBIT;
    tx "b" (isoDate 2024 1 1) "GYM" 49 DEBIT ].

(** Thirteen weekly charges from 2024-01-01 to 2024-03-25: 200 once, then
    100 eleven times, then 105. *)
Definition weeklyAmounts : list Q :=
  200%Q :: repeat 100%Q 11 ++ [105%Q].

Definition weekly : list Transaction :=
  map (fun p : nat * Q =>
         tx (String (ascii_of_nat (65 + fst p)) "")
            (addDays (isoDate 2024 1 1) (7 * Z.of_nat (fst p)))
            "Coffee club" (snd p) DEBIT)
      (combine (seq 0 13) weeklyAmounts).


Definition gymRule : ManualRecurringRule := rule "rule-gym" "gym" DEBIT None.
Definition gymExclusion : ManualRecurringRule := rule "rule-x" "gym" DEBIT (Some true).
Definition spotifyExclusion : ManualRecurringRule :=
  rule "rule-s" "spotify" DEBIT (Some true).

(** The automatic monthly expense of the forecast example. *)
Definition monthly100 : RecurringTransaction :=
  {| description := "Subscription"; category := "General"; amount := 100;
     frequency := monthly; intervalDays := 30; lastCharged := isoDate 2024 1 1;
     occurrences := 3; transactionIds := []; isExclude := None; ruleId := None |}.
End Sample.

(** ** The representative amount as the specification words it *)


(** ** The days on which an automatic entry falls due *)

(** Day [k] after [startDate] is a projected date of [entry] when it lies a
    positive multiple of [intervalDays] after [lastCharged]. *)
Definition projectedExpenseDay (startDate : instant) (entry : RecurringTransaction)
    (k : nat) : bool :=
  let gap := differenceInDays (addDays startDate (Z.of_nat k)) (lastCharged entry) in
  (0 <? gap) && (gap mod intervalDays entry =? 0).

(** ** Fuel *)


(** ** Subscription filter: [identifySubscriptions] and the burn rate *)

Record SubscriptionItem : Type := {
  sub_entry : RecurringTransaction;
  monthlyEquivalent : Q
}.

Definition housingKeywords : list string :=
  ["rent"; "mortgage"; "miete"; "hypothek"; "lease"]%string.

(** The table [multipliers] of [calculateMonthlyEquivalent]. *)
Definition multiplier (f : Frequency) : Q :=
  match f with
  | weekly => 433 # 100
  | bi_weekly => 217 # 100
  | monthly => 1
  | quarterly => 33 # 100
  | yearly => 83 # 1000
  end.

Definition calculateMonthlyEquivalent (amount : Q) (f : Frequency) : Q :=
  (amount * multiplier f)%Q.

(** [housingKeywords.some(keyword => desc.includes(keyword))] *)
Definition isHousing (rt : RecurringTransaction) : bool :=
  let desc := toLowerCase (description rt) in
  existsb (fun keyword => includes desc keyword) housingKeywords.

Definition identifySubscriptions (recurringTransactions : list RecurringTransaction)
    : list SubscriptionItem :=
  map (fun rt => {| sub_entry := rt;
                    monthlyEquivalent := calculateMonthlyEquivalent (amount rt) (frequency rt) |})
      (filter (fun rt => negb (isHousing rt)) recurringTransactions).

Definition calculateSubscriptionBurnRate (subscriptions : list SubscriptionItem) : Q :=
  fold_left (fun total sub => (total + monthlyEquivalent sub)%Q) subscriptions 0%Q.

(** ** [findLowestLiquidityPoint] *)

(** [reduce] without an initial value starts from the first element. *)
Definition findLowestLiquidityPoint (forecast : list LiquidityForecast)
    : option LiquidityForecast :=
  match forecast with
  | [] => None
  | first :: rest =>
      Some (fold_left
              (fun lowest current =>
                 if Qlt_bool (projectedBalance current) (projectedBalance lowest)
                 then current else lowest)
              rest first)
  end.

(** ** Characters of a string *)


(** ** Keys of the grouping *)

Definition keyOf (t : Transaction) : string := normalizeDescription (tx_description t).

Definition hasKey (k : string) (t : Transaction) : bool := String.eqb (keyOf t) k.

(** What the grouping loop keeps true of the groups built from the
    transactions [seen] so far. *)
Definition groupsInvariant (groups : Groups) (seen : list Transaction) : Prop :=
  NoDup (map fst groups) /\
  (forall k txns, In (k, txns) groups -> txns <> [] /\ txns = filter (hasKey k) seen) /\
  (forall t, In t seen -> In (keyOf t) (map fst groups)).

(** ** The debug view: [debugRecurringDetection] of [utils/debugRecurring.ts] *)

(** The four texts of [reason], with the numbers they interpolate (the
    rendering of the numbers into the text is not modelled). *)
Inductive DebugReason : Type :=
| NotEnoughOccurrences (count minOccurrences : Z)
| IntervalsNotConsistent (variance : list number)
| StaleRecurrence (daysSinceLastOccurrence threshold : Z)
| DetectedAsRecurring.

Record DebugGroup : Type := {
  dg_normalizedDescription : string;
  dg_originalDescription : string;
  dg_transactions : list Transaction;
  dg_count : Z;
  dg_intervals : list Z;
  dg_avgInterval : Q;
  dg_variance : list number;
  dg_isConsistent : bool;
  dg_daysSinceLastOccurrence : Z;
  dg_isStale : bool;
  dg_reason : DebugReason
}.

(** The body of the [forEach] over the groups.  A group is never empty; on
    an empty one the source would fail reading [txns[0]], which is [None]
    here. *)
Definition debugGroup (now : instant) (minOccurrences : Z)
    (g : string * list Transaction) : option DebugGroup :=
  let normalizedDesc := fst g in
  let txns := snd g in
  let intervals := intervalsOf txns in
  let avgInterval : Q :=
    if (0 <? List.length intervals)%nat
    then (inject_Z (Zsum intervals) / inject_Z (Z.of_nat (List.length intervals)))%Q
    else 0%Q in
  let variance := varianceOf intervals (Fin avgInterval) in
  let consistent := isConsistent variance in
  match txns, lastOf txns with
  | first :: _, Some lastTransaction =>
      let daysSinceLastOccurrence := differenceInDays now (tradeDate lastTransaction) in
      let isStale := Qlt_bool (avgInterval * 2) (inject_Z daysSinceLastOccurrence) in
      let reason :=
        if Z.of_nat (List.length txns) <? minOccurrences
        then NotEnoughOccurrences (Z.of_nat (List.length txns)) minOccurrences
        else if negb consistent then IntervalsNotConsistent variance
        else if isStale
             then StaleRecurrence daysSinceLastOccurrence (Math_round (avgInterval * 2))
             else DetectedAsRecurring in
      Some {| dg_normalizedDescription := normalizedDesc;
              dg_originalDescription := tx_description first;
              dg_transactions := txns;
              dg_count := Z.of_nat (List.length txns);
              dg_intervals := intervals;
              dg_avgInterval := avgInterval;
              dg_variance := variance;
              dg_isConsistent := consistent;
              dg_daysSinceLastOccurrence := daysSinceLastOccurrence;
              dg_isStale := isStale;
              dg_reason := reason |}
  | _, _ => None
  end.

(** The comparator [(a, b) => b.count - a.count]. *)
Definition byCountDesc (a b : DebugGroup) : bool := dg_count b <=? dg_count a.

Definition debugRecurringDetection (now : instant) (transactions : list Transaction)
    (minOccurrences : Z) : list DebugGroup :=
  let sorted := stableSort byDate transactions in
  let debugResults :=
    flat_map (fun g => optionToList (debugGroup now minOccurrences g))
      (descriptionGroups sorted) in
  stableSort byCountDesc debugResults.

(** ** The category manager: state updates of [hooks/useCategoryManager.ts]

    Each [setState(prev => ...)] is modelled by its updater, a function from
    the previous state to the next; the copy kept in [localStorage] is not
    modelled. *)

Record CategoryRule : Type := {
  cr_id : string;
  cr_pattern : string;
  cr_category : string
}.

Record CategoryOverride : Type := {
  co_transactionId : string;
  co_category : string
}.


Definition addOverride (transactionId category : string) (prev : list CategoryOverride)
    : list CategoryOverride :=
  let filtered :=
    filter (fun o => negb (String.eqb (co_transactionId o) transactionId)) prev in
  filtered ++ [{| co_transactionId := transactionId; co_category := category |}].

(** [[...new Set(l)]]: the elements of [l] in order of first occurrence,
    leaving out those in [seen]. *)
Fixpoint uniqueInOrder (seen l : list string) : list string :=
  match l with
  | [] => []
  | x :: r =>
      if existsb (String.eqb x) seen then uniqueInOrder seen r
      else x :: uniqueInOrder (x :: seen) r
  end.

Definition toggleInvestmentCategory (category : string) (isInvestment : bool)
    (prev : list string) : list string :=
  if isInvestment then uniqueInOrder [] (prev ++ [category])
  else filter (fun c => negb (String.eqb c category)) prev.

Definition ruleApplies (transaction : Transaction) (r : CategoryRule) : bool :=
  includes (toLowerCase (tx_description transaction)) (toLowerCase (cr_pattern r)).

Definition getEffectiveCategory (rules : list CategoryRule)
    (overrides : list CategoryOverride) (transaction : Transaction) : string :=
  match find (fun o => String.eqb (co_transactionId o) (tx_id transaction)) overrides with
  | Some override => co_category override
  | None =>
      match find (ruleApplies transaction) rules with
      | Some rule => cr_category rule
      | None => tx_category transaction
      end
  end.

(** [{...tx, category}] *)
Definition withCategory (tx : Transaction) (c : string) : Transaction :=
  {| tx_id := tx_id tx; tradeDate := tradeDate tx; tx_description := tx_description tx;
     tx_amount := tx_amount tx; tx_type := tx_type tx; tx_category := c |}.

Definition reclassifyTransactions (rules : list CategoryRule)
    (overrides : list CategoryOverride) (transactions : list Transaction)
    : list Transaction :=
  map (fun tx => withCategory tx (getEffectiveCategory rules overrides tx)) transactions.

(** ** The recurring-rules manager: state updates of
       [hooks/useRecurringRulesManager.ts] *)

(** [{...r, enabled: b}] *)
Definition withEnabled (r : ManualRecurringRule) (b : bool) : ManualRecurringRule :=
  {| rule_id := rule_id r; rule_type := rule_type r;
     descriptionPattern := descriptionPattern r; rule_category := rule_category r;
     dayRangeStart := dayRangeStart r; dayRangeEnd := dayRangeEnd r;
     rule_intervalDays := rule_intervalDays r; expectedAmount := expectedAmount r;
     amountTolerance := amountTolerance r; useAverage := useAverage r;
     enabled := b; rule_isExclude := rule_isExclude r |}.

Definition removeRule (id : string) (prev : list ManualRecurringRule)
    : list ManualRecurringRule :=
  filter (fun r => negb (String.eqb (rule_id r) id)) prev.

Definition toggleRule (id : string) (prev : list ManualRecurringRule)
    : list ManualRecurringRule :=
  map (fun r => if String.eqb (rule_id r) id then withEnabled r (negb (enabled r)) else r)
      prev.

(** ** The subscription audit: [subscriptionData] of
       [components/dashboard/SubscriptionAudit.tsx] *)

Definition subscriptionData (now : instant) (transactions : list Transaction)
    (selectedCategories : option (list string)) : list SubscriptionItem :=
  let debits := filter isDebit transactions in
  let recurring := detectRecurringTransactions now debits 2 [] in
  let subscriptions := identifySubscriptions recurring in
  match selectedCategories with
  | Some (c :: cs) =>
      filter (fun sub => existsb (String.eqb (category (sub_entry sub))) (c :: cs))
             subscriptions
  | _ => subscriptions
  end.

(** * Properties *)

(** ** Lists, sorting and grouping *)

Section SortFacts.
Context {A : Type}.
Variable before : A -> A -> bool.

Lemma insertSorted_In (x a : A) (l : list A) :
  In x (insertSorted before a l) <-> x = a \/ In x l.
Proof.
  induction l as [|y r IH]; simpl.
  - intuition.
  - destruct (before a y); simpl; rewrite ?IH; intuition.
Qed.

Lemma stableSort_In (x : A) (l : list A) :
  In x (stableSort before l) <-> In x l.
Proof.
  induction l as [|a r IH]; simpl.
  - tauto.
  - rewrite insertSorted_In, IH. intuition.
Qed.

Lemma insertSorted_length (a : A) (l : list A) :
  List.length (insertSorted before a l) = S (List.length l).
Proof.
  induction l as [|y r IH]; simpl; auto.
  destruct (before a y); simpl; auto.
Qed.

Lemma stableSort_length (l : list A) :
  List.length (stableSort before l) = List.length l.
Proof.
  induction l as [|a r IH]; simpl; auto.
  rewrite insertSorted_length. auto.
Qed.
End SortFacts.

Lemma lastOf_In {A : Type} (l : list A) (x : A) : lastOf l = Some x -> In x l.
Proof.
  unfold lastOf. intros H.
  destruct (rev l) as [|y r] eqn:E; [discriminate|].
  injection H as ->. apply in_rev. rewrite E. now left.
Qed.

Lemma lastOf_nonempty {A : Type} (l : list A) : l <> [] -> exists x, lastOf l = Some x.
Proof.
  unfold lastOf. intros H.
  destruct (rev l) as [|y r] eqn:E; [|eauto].
  exfalso. apply H. apply (f_equal (@rev A)) in E. now rewrite rev_involutive in E.
Qed.

(** Every transaction of every group comes from the grouped list. *)
Lemma pushToGroup_members (key : string) (t : Transaction) (groups : Groups)
    (g : string * list Transaction) (x : Transaction) :
  In g (pushToGroup key t groups) -> In x (snd g) ->
  x = t \/ exists g', In g' groups /\ In x (snd g').
Proof.
  induction groups as [|[k txns] rest IH]; simpl; intros Hg Hx.
  - destruct Hg as [<-|[]]. simpl in Hx. intuition.
  - destruct (String.eqb k key).
    + destruct Hg as [<-|Hg].
      * simpl in Hx. apply in_app_or in Hx as [Hx|[<-|[]]]; auto.
        right. exists (k, txns). auto.
      * right. exists g. auto.
    + destruct Hg as [<-|Hg].
      * right. exists (k, txns). auto.
      * destruct (IH Hg Hx) as [->|(g' & Hg' & Hx')]; auto.
        right. exists g'. auto.
Qed.

Lemma fold_pushToGroup_members (l : list Transaction) (groups : Groups)
    (g : string * list Transaction) (x : Transaction) :
  In g (fold_left (fun gs t => pushToGroup (normalizeDescription (tx_description t)) t gs)
          l groups) ->
  In x (snd g) ->
  In x l \/ exists g', In g' groups /\ In x (snd g').
Proof.
  revert groups. induction l as [|t r IH]; simpl; intros groups Hg Hx.
  - right. exists g. auto.
  - destruct (IH _ Hg Hx) as [H|(g' & Hg' & Hx')]; auto.
    destruct (pushToGroup_members _ _ _ _ _ Hg' Hx') as [->|H]; auto.
Qed.

Lemma descriptionGroups_members (sorted : list Transaction)
    (g : string * list Transaction) (x : Transaction) :
  In g (descriptionGroups sorted) -> In x (snd g) -> In x sorted.
Proof.
  intros Hg Hx.
  destruct (fold_pushToGroup_members _ _ _ _ Hg Hx) as [H|(g' & [] & _)]; auto.
Qed.

(** ** The group analysis, inverted *)

Lemma avgIntervalOf_Fin (intervals : list Z) (avg : Q) :
  avgIntervalOf intervals = Fin avg ->
  intervals <> [] /\
  avg = (inject_Z (Zsum intervals) / inject_Z (Z.of_nat (List.length intervals)))%Q.
Proof.
  unfold avgIntervalOf, ndiv, Qsign. intros H.
  destruct (inject_Z (Z.of_nat (List.length intervals)) ?= 0)%Q eqn:E.
  - destruct (inject_Z (Zsum intervals) ?= 0)%Q; discriminate.
  - apply Qlt_alt in E. change 0%Q with (inject_Z 0) in E. rewrite <- Zlt_Qlt in E. lia.
  - injection H as <-. split; auto.
    intros ->. simpl in E. discriminate.
Qed.

Lemma analyzeGroup_Some (now : instant) (minOccurrences : Z) (txns : list Transaction)
    (e : RecurringTransaction) :
  analyzeGroup now minOccurrences txns = Some e ->
  exists avg lastTransaction,
    minOccurrences <= Z.of_nat (List.length txns) /\
    avgIntervalOf (intervalsOf txns) = Fin avg /\
    (0 < avg)%Q /\
    isConsistent (varianceOf (intervalsOf txns) (Fin avg)) = true /\
    lastOf txns = Some lastTransaction /\
    (inject_Z (differenceInDays now (tradeDate lastTransaction)) <= avg * 2)%Q /\
    e = {| description := tx_description lastTransaction;
           category := tx_category lastTransaction;
           amount := representativeAmount txns lastTransaction;
           frequency := determineFrequency avg;
           intervalDays := Math_round avg;
           lastCharged := tradeDate lastTransaction;
           occurrences := Z.of_nat (List.length txns);
           transactionIds := map tx_id txns;
           isExclude := None;
           ruleId := None |}.
Proof.
  unfold analyzeGroup. intros H.
  destruct (Z.of_nat (List.length txns) <? minOccurrences) eqn:Hmin; [discriminate|].
  apply Z.ltb_ge in Hmin.
  destruct (isConsistent _ && ngt _ 0) eqn:Hc; [|discriminate].
  apply andb_true_iff in Hc as [Hc Hpos].
  destruct (avgIntervalOf (intervalsOf txns)) as [avg| | |] eqn:Havg; try discriminate.
  destruct (lastOf txns) as [lastTransaction|] eqn:Hlast; [|discriminate].
  destruct (Qlt_bool _ _) eqn:Hstale; [discriminate|].
  injection H as <-.
  exists avg, lastTransaction. repeat split; auto.
  - unfold ngt in Hpos. apply negb_true_iff in Hpos.
    destruct (Qlt_le_dec 0 avg) as [?|Hle]; auto.
    apply Qle_bool_iff in Hle. congruence.
  - unfold Qlt_bool in Hstale. apply negb_false_iff in Hstale.
    now apply Qle_bool_iff.
Qed.

(** The mean of a list of gaps is finite, or [NaN] when the list is empty:
    the infinities never reach the match on [avgInterval] in
    [analyzeGroup]. *)
Lemma avgIntervalOf_finite_or_NaN (intervals : list Z) :
  (exists q, avgIntervalOf intervals = Fin q) \/
  (intervals = [] /\ avgIntervalOf intervals = NaN).
Proof.
  destruct intervals as [|i r]; [right; split; reflexivity|left].
  unfold avgIntervalOf, ndiv, Qsign.
  assert (H : (inject_Z (Z.of_nat (List.length (i :: r))) ?= 0)%Q = Gt).
  { apply Qgt_alt. change 0%Q with (inject_Z 0). rewrite <- Zlt_Qlt. simpl. lia. }
  rewrite H. eauto.
Qed.

(** Inverts a successful group analysis, naming what it yields. *)
Ltac invert_analyzeGroup H :=
  apply analyzeGroup_Some in H
    as (?avg & ?lastTransaction & ?Hmin & ?Havg & ?Hpos & ?Hc & ?Hlast & ?Hfresh & ->).

(** A deviation below 0.2 from a positive mean leaves the gap positive. *)
Lemma consistent_gap_positive (avg : Q) (i : Z) :
  (0 < avg)%Q ->
  nlt (ndiv (nabs (nsub (Fin (inject_Z i)) (Fin avg))) (Fin avg)) (2 # 10) = true ->
  1 <= i.
Proof.
  intros Hpos H. unfold nsub, nabs, ndiv, Qsign in H.
  assert (Hgt : (avg ?= 0)%Q = Gt) by now apply Qgt_alt.
  rewrite Hgt in H. unfold nlt in H. apply negb_true_iff in H.
  assert (Hlt : (Qabs (inject_Z i - avg) / avg < 2 # 10)%Q).
  { destruct (Qlt_le_dec (Qabs (inject_Z i - avg) / avg) (2 # 10)) as [?|Hle]; auto.
    apply Qle_bool_iff in Hle. congruence. }
  assert (Hd : (Qabs (inject_Z i - avg) < (2 # 10) * avg)%Q).
  { assert (Heq : (Qabs (inject_Z i - avg) == (Qabs (inject_Z i - avg) / avg) * avg)%Q)
      by (field; lra).
    rewrite Heq. apply Qmult_lt_compat_r; auto. }
  assert (Hneg : (- (inject_Z i - avg) <= Qabs (inject_Z i - avg))%Q).
  { rewrite <- Qabs_opp. apply Qle_Qabs. }
  assert (Hi : (inject_Z 0 < inject_Z i)%Q) by (change (inject_Z 0) with 0%Q; lra).
  rewrite <- Zlt_Qlt in Hi. lia.
Qed.

Lemma isConsistent_gaps_positive (avg : Q) (intervals : list Z) :
  (0 < avg)%Q ->
  isConsistent (varianceOf intervals (Fin avg)) = true ->
  forall i, In i intervals -> 1 <= i.
Proof.
  intros Hpos H i Hi. unfold isConsistent, varianceOf in H.
  rewrite forallb_forall in H.
  apply (consistent_gap_positive avg i Hpos).
  apply H. apply in_map_iff. exists i. auto.
Qed.

Lemma Zsum_acc (l : list Z) (a : Z) : fold_left Z.add l a = a + Zsum l.
Proof.
  unfold Zsum. revert a. induction l as [|x r IH]; simpl; intros a; [lia|].
  rewrite IH, (IH x). lia.
Qed.

Lemma Zsum_lower_bound (l : list Z) :
  (forall i, In i l -> 1 <= i) -> Z.of_nat (List.length l) <= Zsum l.
Proof.
  induction l as [|x r IH]; intros H.
  - reflexivity.
  - unfold Zsum. simpl fold_left. rewrite Zsum_acc.
    assert (1 <= x) by (apply H; now left).
    assert (Z.of_nat (List.length r) <= Zsum r) by (apply IH; intros; apply H; now right).
    simpl List.length. lia.
Qed.

Lemma Math_round_ge_1 (q : Q) : (1 <= q)%Q -> 1 <= Math_round q.
Proof.
  intros H. unfold Math_round.
  change 1 with (Qfloor (inject_Z 1)) at 1.
  apply Qfloor_resp_le. change (inject_Z 1) with 1%Q. lra.
Qed.

(** The mean of a consistent group with a positive mean is at least one day. *)
Lemma consistent_mean_ge_1 (intervals : list Z) (avg : Q) :
  avgIntervalOf intervals = Fin avg ->
  (0 < avg)%Q ->
  isConsistent (varianceOf intervals (Fin avg)) = true ->
  (1 <= avg)%Q.
Proof.
  intros Havg Hpos Hc.
  destruct (avgIntervalOf_Fin _ _ Havg) as [Hne ->].
  pose proof (Zsum_lower_bound _ (isConsistent_gaps_positive _ _ Hpos Hc)) as Hsum.
  assert (Hlen : 0 < Z.of_nat (List.length intervals)).
  { destruct intervals; [congruence|simpl; lia]. }
  apply Qle_shift_div_l.
  - rewrite Zlt_Qlt in Hlen. exact Hlen.
  - rewrite Qmult_1_l. rewrite <- Zle_Qle. exact Hsum.
Qed.

(** ** What the manual matcher and the merger emit *)

Lemma ruleResults_cases (now : instant) (transactions : list Transaction)
    (rule : ManualRecurringRule) (e : RecurringTransaction) :
  In e (ruleResults now transactions rule) ->
  let matched := stableSort byDate (filter (matchesRule rule) transactions) in
  (filter (matchesRule rule) transactions = [] /\ e = projectedEntry now rule) \/
  (exists lastTransaction,
      filter (matchesRule rule) transactions <> [] /\
      ((truthyBool (rule_isExclude rule) = true /\
        e = exclusionEntry rule matched lastTransaction) \/
       (truthyBool (rule_isExclude rule) = false /\
        e = matchedEntry rule matched lastTransaction))).
Proof.
  intros H matched. unfold ruleResults in H.
  destruct (filter (matchesRule rule) transactions) as [|t r] eqn:Hm.
  - left. split; auto.
    destruct (_ && _); [|contradiction].
    destruct H as [<-|[]]. reflexivity.
  - right. fold matched in H.
    destruct (lastOf matched) as [lastTransaction|]; [|contradiction].
    exists lastTransaction. split; [discriminate|].
    destruct (truthyBool (rule_isExclude rule)); destruct H as [<-|[]]; auto.
Qed.

Lemma detectManual_In (now : instant) (transactions : list Transaction)
    (rules : list ManualRecurringRule) (e : RecurringTransaction) :
  In e (detectManualRecurringTransactions now transactions rules) <->
  exists rule, In rule rules /\ enabled rule = true /\
               In e (ruleResults now transactions rule).
Proof.
  unfold detectManualRecurringTransactions. rewrite in_flat_map.
  split; intros (rule & H1 & H2).
  - apply filter_In in H1 as [? ?]. eauto.
  - destruct H2. exists rule. split; auto. apply filter_In. auto.
Qed.

(** Every entry of the manual matcher carries the identifier of its rule and
    counts the transactions the rule matched. *)
Lemma detectManual_entry (now : instant) (transactions : list Transaction)
    (rules : list ManualRecurringRule) (e : RecurringTransaction) :
  In e (detectManualRecurringTransactions now transactions rules) ->
  exists rule, In rule rules /\ enabled rule = true /\
    ruleId e = Some (rule_id rule) /\
    occurrences e = Z.of_nat (List.length (filter (matchesRule rule) transactions)) /\
    List.length (transactionIds e) = List.length (filter (matchesRule rule) transactions).
Proof.
  intros H. apply detectManual_In in H as (rule & Hin & Hen & H).
  exists rule. split; [|split]; auto.
  apply ruleResults_cases in H.
  destruct H as [[Hm ->]|(lastTransaction & Hm & [[_ ->]|[_ ->]])]; simpl;
    rewrite ?Hm, ?length_map, ?stableSort_length; auto.
Qed.

Lemma automaticResults_In (now : instant) (minOccurrences : Z) (groups : Groups)
    (e : RecurringTransaction) :
  In e (automaticResults now minOccurrences groups) <->
  exists g, In g groups /\ analyzeGroup now minOccurrences (snd g) = Some e.
Proof.
  unfold automaticResults. rewrite in_flat_map.
  split; intros (g & Hg & H); exists g; split; auto.
  - destruct (analyzeGroup now minOccurrences (snd g)); simpl in H; intuition congruence.
  - rewrite H. now left.
Qed.

(** The merged output is the manual entries that are not exclusions and the
    automatic entries of the groups of the remaining transactions. *)
Lemma detectRecurringTransactions_In (now : instant) (transactions : list Transaction)
    (minOccurrences : Z) (manualRules : list ManualRecurringRule)
    (e : RecurringTransaction) :
  In e (detectRecurringTransactions now transactions minOccurrences manualRules) <->
  let manualResults := detectManualRecurringTransactions now transactions manualRules in
  (In e manualResults /\ truthyBool (isExclude e) = false) \/
  In e (automaticResults now minOccurrences
          (descriptionGroups
             (stableSort byDate (remainingTransactions manualResults transactions)))).
Proof.
  unfold detectRecurringTransactions. cbv zeta.
  rewrite stableSort_In, in_app_iff, filter_In, negb_true_iff. tauto.
Qed.

Lemma automatic_entry (now : instant) (transactions : list Transaction)
    (minOccurrences : Z) (manualResults : list RecurringTransaction)
    (e : RecurringTransaction) :
  In e (automaticResults now minOccurrences
          (descriptionGroups
             (stableSort byDate (remainingTransactions manualResults transactions)))) ->
  exists txns,
    analyzeGroup now minOccurrences txns = Some e /\
    forall t, In t txns ->
      In t transactions /\
      ~ In (tx_id t) (flat_map transactionIds manualResults).
Proof.
  intros H. apply automaticResults_In in H as (g & Hg & H).
  exists (snd g). split; auto.
  intros t Ht.
  pose proof (descriptionGroups_members _ _ _ Hg Ht) as Hs.
  apply stableSort_In in Hs. unfold remainingTransactions in Hs.
  apply filter_In in Hs as [Hin Hnot]. split; auto.
  apply negb_true_iff in Hnot. intros Hid.
  assert (existsb (String.eqb (tx_id t)) (flat_map transactionIds manualResults) = true).
  { apply existsb_exists. exists (tx_id t). split; auto. apply String.eqb_refl. }
  congruence.
Qed.

(** An entry without a rule identifier is an automatic one. *)
Lemma output_without_ruleId (now : instant) (transactions : list Transaction)
    (minOccurrences : Z) (manualRules : list ManualRecurringRule)
    (e : RecurringTransaction) :
  In e (detectRecurringTransactions now transactions minOccurrences manualRules) ->
  ruleId e = None ->
  exists txns,
    analyzeGroup now minOccurrences txns = Some e /\
    forall t, In t txns ->
      In t transactions /\
      ~ In (tx_id t)
          (flat_map transactionIds
             (detectManualRecurringTransactions now transactions manualRules)).
Proof.
  intros H Hnone. apply detectRecurringTransactions_In in H. cbv zeta in H.
  destruct H as [[H _]|H].
  - apply detectManual_entry in H as (rule & _ & _ & Hid & _). congruence.
  - now apply automatic_entry in H.
Qed.

(** * The claims *)

(** ** Intervals of automatic entries *)

(** C10: every entry of the merged output of [detectRecurringTransactions]
    that carries no rule identifier (an automatically detected entry) has
    [intervalDays >= 1]: a gap whose relative deviation from the positive
    mean is below 0.2 is a positive integer, so the mean is at least 1 and so
    is its rounding. *)
Theorem automatic_intervalDays_ge_1 (now : instant) (transactions : list Transaction)
    (minOccurrences : Z) (manualRules : list ManualRecurringRule)
    (e : RecurringTransaction) :
  In e (detectRecurringTransactions now transactions minOccurrences manualRules) ->
  ruleId e = None ->
  1 <= intervalDays e.
Proof.
  intros Hin Hnone.
  destruct (output_without_ruleId _ _ _ _ _ Hin Hnone) as (txns & Ha & _).
  invert_analyzeGroup Ha.
  simpl. apply Math_round_ge_1.
  now apply (consistent_mean_ge_1 (intervalsOf txns)).
Qed.

Lemma automatic_intervalDays_ge_1_witness :
  1 <= intervalDays
         (hd Sample.monthly100 (detectRecurringTransactions Sample.now Sample.gym 3 [])).
Proof.
  apply (automatic_intervalDays_ge_1 Sample.now Sample.gym 3 []).
  - vm_compute. left. reflexivity.
  - reflexivity.
Defined.

(** ** Occurrence threshold *)

(** C3, as the claim states it, fails: a rule that matches a single
    transaction gives an entry with [occurrences = 1] under a threshold of
    3; the entry is rule-backed but not a zero-match projection. *)
Lemma occurrences_threshold_counterexample :
  exists e,
    In e (detectRecurringTransactions Sample.now (firstn 1 Sample.gym) 3 [Sample.gymRule]) /\
    ~ (3 <= occurrences e \/
       (ruleId e <> None /\ occurrences e = 0 /\ transactionIds e = [])).
Proof.
  eexists. split.
  - vm_compute. left. reflexivity.
  - simpl. intros [H|(_ & H & _)]; [lia|discriminate].
Qed.

(** C3 (amended): an entry of the merged output either has no rule
    identifier and then [occurrences >= minOccurrences], or is backed by an
    enabled rule and then [occurrences] is the number of transactions the
    rule matched, whatever the threshold, and [transactionIds] has that many
    identifiers (none when the rule matched nothing). *)
Theorem occurrences_threshold (now : instant) (transactions : list Transaction)
    (minOccurrences : Z) (manualRules : list ManualRecurringRule)
    (e : RecurringTransaction) :
  In e (detectRecurringTransactions now transactions minOccurrences manualRules) ->
  (ruleId e = None /\ minOccurrences <= occurrences e) \/
  (exists rule,
      In rule manualRules /\ enabled rule = true /\
      ruleId e = Some (rule_id rule) /\
      occurrences e = Z.of_nat (List.length (filter (matchesRule rule) transactions)) /\
      List.length (transactionIds e)
        = List.length (filter (matchesRule rule) transactions) /\
      (occurrences e = 0 -> transactionIds e = [])).
Proof.
  intros Hin. apply detectRecurringTransactions_In in Hin. cbv zeta in Hin.
  destruct Hin as [[Hin _]|Hin].
  - right. apply detectManual_entry in Hin as (rule & H1 & H2 & H3 & H4 & H5).
    exists rule. repeat split; auto.
    intros H0. rewrite H4 in H0.
    destruct (transactionIds e); [reflexivity|].
    simpl in H5. lia.
  - left. apply automatic_entry in Hin as (txns & Ha & _).
    invert_analyzeGroup Ha. simpl. auto.
Qed.

Lemma occurrences_threshold_witness :
  exists e,
    In e (detectRecurringTransactions Sample.now Sample.gym 3 []) /\
    ruleId e = None /\ 3 <= occurrences e.
Proof.
  pose (e := hd Sample.monthly100 (detectRecurringTransactions Sample.now Sample.gym 3 [])).
  assert (Hin : In e (detectRecurringTransactions Sample.now Sample.gym 3 []))
    by (vm_compute; left; reflexivity).
  exists e. split; [exact Hin|].
  destruct (occurrences_threshold _ _ _ _ e Hin) as [H|(rule & [] & _)].
  exact H.
Defined.

(** ** Exclusion rules *)

Lemma exclusion_ids_blocked (now : instant) (transactions : list Transaction)
    (rules : list ManualRecurringRule) (rule : ManualRecurringRule) (t : Transaction) :
  In rule rules -> enabled rule = true -> truthyBool (rule_isExclude rule) = true ->
  In t transactions -> matchesRule rule t = true ->
  In (tx_id t)
     (flat_map transactionIds (detectManualRecurringTransactions now transactions rules)).
Proof.
  intros Hr Hen Hex Ht Hm.
  assert (Hin : In t (filter (matchesRule rule) transactions)) by (apply filter_In; auto).
  set (matched := stableSort byDate (filter (matchesRule rule) transactions)).
  assert (Hs : In t matched) by now apply stableSort_In.
  destruct (lastOf_nonempty matched) as [lastTransaction Hlast].
  { intros E. rewrite E in Hs. exact Hs. }
  apply in_flat_map. exists (exclusionEntry rule matched lastTransaction). split.
  - apply detectManual_In. exists rule. repeat split; auto.
    unfold ruleResults.
    destruct (filter (matchesRule rule) transactions) as [|t0 r] eqn:E; [contradiction|].
    fold matched. rewrite Hlast, Hex. now left.
  - simpl. now apply in_map.
Qed.

(** C6: when an enabled rule with [isExclude = true] matches a transaction,
    the identifier of that transaction is in the [transactionIds] of no
    automatic entry (an entry without rule identifier) of the merged output,
    and no entry of the merged output has [isExclude] set (the field is
    absent on every entry). *)
Theorem exclusion_rule_suppresses (now : instant) (transactions : list Transaction)
    (minOccurrences : Z) (manualRules : list ManualRecurringRule)
    (rule : ManualRecurringRule) (t : Transaction) :
  In rule manualRules -> enabled rule = true -> rule_isExclude rule = Some true ->
  In t transactions -> matchesRule rule t = true ->
  forall e,
    In e (detectRecurringTransactions now transactions minOccurrences manualRules) ->
    (ruleId e = None -> ~ In (tx_id t) (transactionIds e)) /\
    isExclude e = None.
Proof.
  intros Hr Hen Hex Ht Hm e Hin. split.
  - intros Hnone Hid.
    destruct (output_without_ruleId _ _ _ _ _ Hin Hnone) as (txns & Ha & Hall).
    invert_analyzeGroup Ha.
    simpl in Hid. apply in_map_iff in Hid as (t' & Heq & Ht').
    destruct (Hall t' Ht') as [_ Hnot]. apply Hnot. rewrite Heq.
    apply (exclusion_ids_blocked now transactions manualRules rule t); auto.
    now rewrite Hex.
  - apply detectRecurringTransactions_In in Hin. cbv zeta in Hin.
    destruct Hin as [[Hin Hx]|Hin].
    + apply detectManual_In in Hin as (rule' & _ & _ & Hin).
      apply ruleResults_cases in Hin.
      destruct Hin as [[_ ->]|(lastTransaction & _ & [[_ ->]|[_ ->]])];
        try reflexivity.
      simpl in Hx. discriminate.
    + apply automatic_entry in Hin as (txns & Ha & _).
      invert_analyzeGroup Ha. reflexivity.
Qed.

Lemma exclusion_rule_suppresses_witness :
  exists e,
    In e (detectRecurringTransactions Sample.now (Sample.gym ++ Sample.rent) 3
            [Sample.gymExclusion]) /\
    ~ In "g1"%string (transactionIds e) /\ isExclude e = None.
Proof.
  pose (e := hd Sample.monthly100
               (detectRecurringTransactions Sample.now (Sample.gym ++ Sample.rent) 3
                  [Sample.gymExclusion])).
  assert (Hin : In e (detectRecurringTransactions Sample.now (Sample.gym ++ Sample.rent) 3
                        [Sample.gymExclusion]))
    by (vm_compute; left; reflexivity).
  exists e. split; [exact Hin|].
  destruct (exclusion_rule_suppresses Sample.now (Sample.gym ++ Sample.rent) 3
              [Sample.gymExclusion] Sample.gymExclusion
              (Sample.tx "g1" (isoDate 2023 12 1) "Gym Membership 1" 49 DEBIT)
              (or_introl eq_refl) eq_refl eq_refl (or_introl eq_refl) eq_refl e Hin)
    as [H1 H2].
  split; [apply H1; reflexivity | exact H2].
Defined.

(** C9: an enabled rule with [isExclude] set and a non-empty pattern that
    matches no transaction, in a context that is empty or whose first
    transaction has the direction of the rule, makes the manual matcher emit
    the projected entry of the rule ([occurrences = 0], no transaction
    identifier, no [isExclude] flag), and that entry is in the merged output
    of [detectRecurringTransactions]. *)
Theorem unmatched_exclusion_rule_is_projected (now : instant)
    (transactions : list Transaction) (minOccurrences : Z)
    (manualRules : list ManualRecurringRule) (rule : ManualRecurringRule) :
  In rule manualRules -> enabled rule = true -> rule_isExclude rule = Some true ->
  descriptionPattern rule <> EmptyString ->
  filter (matchesRule rule) transactions = [] ->
  (transactions = [] \/
   exists t0 rest, transactions = t0 :: rest /\ tx_type t0 = rule_type rule) ->
  let e := projectedEntry now rule in
  In e (detectManualRecurringTransactions now transactions manualRules) /\
  In e (detectRecurringTransactions now transactions minOccurrences manualRules) /\
  occurrences e = 0 /\ transactionIds e = [] /\ isExclude e = None /\
  ruleId e = Some (rule_id rule).
Proof.
  intros Hr Hen Hex Hpat Hm Hctx e.
  assert (Hin : In e (detectManualRecurringTransactions now transactions manualRules)).
  { apply detectManual_In. exists rule. repeat split; auto.
    unfold ruleResults. rewrite Hm.
    assert (Hp : truthyString (descriptionPattern rule) = true).
    { unfold truthyString. apply negb_true_iff. apply String.eqb_neq. exact Hpat. }
    rewrite Hp, orb_true_r.
    destruct Hctx as [->|(t0 & rest & -> & Hty)].
    - now left.
    - rewrite Hty. destruct (rule_type rule); now left. }
  repeat split; auto.
  apply detectRecurringTransactions_In. cbv zeta. left. split; auto.
Qed.

Lemma unmatched_exclusion_rule_is_projected_witness :
  In (projectedEntry Sample.now Sample.spotifyExclusion)
     (detectRecurringTransactions Sample.now Sample.rent 3 [Sample.spotifyExclusion]).
Proof.
  apply (unmatched_exclusion_rule_is_projected Sample.now Sample.rent 3
           [Sample.spotifyExclusion] Sample.spotifyExclusion).
  - now left.
  - reflexivity.
  - reflexivity.
  - discriminate.
  - reflexivity.
  - right. eexists. eexists. split; reflexivity.
Defined.

(** ** Staleness *)

(** C5: a group whose last transaction lies more than twice the mean gap
    before today pushes nothing, whatever its size and however regular its
    gaps: the analysis of the group answers [None], and the automatic
    results are those of the other groups. *)
Theorem stale_group_discarded (now : instant) (minOccurrences : Z)
    (txns : list Transaction) (avg : Q) (lastTransaction : Transaction) :
  avgIntervalOf (intervalsOf txns) = Fin avg ->
  lastOf txns = Some lastTransaction ->
  (avg * 2 < inject_Z (differenceInDays now (tradeDate lastTransaction)))%Q ->
  analyzeGroup now minOccurrences txns = None /\
  forall (key : string) (groups groups' : Groups),
    automaticResults now minOccurrences (groups ++ (key, txns) :: groups')
    = automaticResults now minOccurrences (groups ++ groups').
Proof.
  intros Havg Hlast Hstale.
  assert (Hnone : analyzeGroup now minOccurrences txns = None).
  { unfold analyzeGroup.
    destruct (Z.of_nat (List.length txns) <? minOccurrences); [reflexivity|].
    destruct (isConsistent _ && ngt _ 0); [|reflexivity].
    rewrite Havg, Hlast.
    assert (Hb : Qlt_bool (avg * 2)
                   (inject_Z (differenceInDays now (tradeDate lastTransaction))) = true).
    { unfold Qlt_bool. apply negb_true_iff.
      destruct (Qle_bool _ _) eqn:E; [|reflexivity].
      apply Qle_bool_iff in E. lra. }
    now rewrite Hb. }
  split; [exact Hnone|].
  intros key groups groups'. unfold automaticResults.
  rewrite !flat_map_app. simpl. now rewrite Hnone.
Qed.

(** The gym group is detected on 2024-02-20 and is stale on 2024-05-01,
    90 days after its last charge, its mean gap being 31 days. *)
Lemma stale_group_discarded_witness :
  analyzeGroup Sample.now 3 Sample.gym <> None /\
  analyzeGroup (isoDate 2024 5 1) 3 Sample.gym = None.
Proof.
  split; [vm_compute; discriminate|].
  apply (stale_group_discarded (isoDate 2024 5 1) 3 Sample.gym (62 # 2)
           (Sample.tx "g3" (isoDate 2024 2 1) "GYM membership" 49 DEBIT)).
  - reflexivity.
  - reflexivity.
  - vm_compute. reflexivity.
Defined.

(** ** Division by a zero mean interval *)


Lemma zero_mean_deviation (q : Q) (i : Z) :
  q == 0 ->
  let v := ndiv (nabs (nsub (Fin (inject_Z i)) (Fin q))) (Fin q) in
  v = NaN \/ v = PosInf.
Proof.
  intros Hq. unfold nsub, nabs, ndiv, Qsign.
  apply Qeq_alt in Hq. rewrite Hq.
  destruct (Qabs (inject_Z i - q) ?= 0)%Q eqn:E; auto.
  apply Qlt_alt in E. pose proof (Qabs_nonneg (inject_Z i - q)). lra.
Qed.



(** ** Representative amount *)









(** ** The forecast example *)

Lemma forallb_seq (P : nat -> bool) (n : nat) :
  forallb P (seq 0 n) = true -> forall k, (k < n)%nat -> P k = true.
Proof.
  intros H k Hk. rewrite forallb_forall in H. apply H. apply in_seq. lia.
Qed.

(** C7: with balance 1000, no income, the automatic expense of 100 every 30
    days last charged on 2024-01-01, a horizon of 90 days and the start date
    2024-01-15, [projectLiquidity] returns (for any fuel from 4 on) 91
    points, the point of index [k] dated [k] days after the start; the
    balance is 1000 on day 0 and from one day to the next it drops by
    exactly 100 when the day is a projected date of the expense and is
    unchanged otherwise; the projected dates are the days 16, 46 and 76. *)
Theorem forecast_example (extra : nat) :
  let startDate := isoDate 2024 1 15 in
  let blank := {| date := (0, 0, 0); projectedBalance := 0; event := None |} in
  exists forecast,
    projectLiquidity (4 + extra) 1000 [] [Sample.monthly100] 90 startDate = Some forecast /\
    List.length forecast = 91%nat /\
    (forall k, (k < 91)%nat ->
       date (nth k forecast blank) = getDateKey (addDays startDate (Z.of_nat k))) /\
    projectedBalance (nth 0 forecast blank) == 1000 /\
    (forall k, (k < 90)%nat ->
       projectedBalance (nth (S k) forecast blank) ==
       if projectedExpenseDay startDate Sample.monthly100 (S k)
       then projectedBalance (nth k forecast blank) - 100
       else projectedBalance (nth k forecast blank)) /\
    filter (projectedExpenseDay startDate Sample.monthly100) (seq 0 91)
    = [16; 46; 76]%nat.
Proof.
  intros startDate blank. eexists. split; [vm_compute; reflexivity|].
  split; [reflexivity|].
  split.
  { intros k Hk.
    match goal with |- date (nth k ?f blank) = _ => set (fc := f) end.
    apply (forallb_seq
             (fun k => DateKey_eqb (date (nth k fc blank))
                         (getDateKey (addDays startDate (Z.of_nat k)))) 91) in Hk.
    - destruct (date _) as [[y m] d], (getDateKey _) as [[y' m'] d'].
      simpl in Hk. apply andb_true_iff in Hk as [Hk H3].
      apply andb_true_iff in Hk as [H1 H2].
      apply Z.eqb_eq in H1, H2, H3. congruence.
    - vm_compute. reflexivity. }
  split; [vm_compute; reflexivity|].
  split; [|vm_compute; reflexivity].
  intros k Hk.
  match goal with |- projectedBalance (nth (S k) ?f blank) == _ => set (fc := f) end.
  apply (forallb_seq
           (fun k => Qeq_bool (projectedBalance (nth (S k) fc blank))
                       (if projectedExpenseDay startDate Sample.monthly100 (S k)
                        then projectedBalance (nth k fc blank) - 100
                        else projectedBalance (nth k fc blank))) 90) in Hk.
  - apply Qeq_bool_iff in Hk. exact Hk.
  - vm_compute. reflexivity.
Qed.

(** Day 16 is 2024-01-31, thirty days after the last charge. *)
Lemma forecast_example_witness :
  let blank := {| date := (0, 0, 0); projectedBalance := 0; event := None |} in
  exists forecast,
    projectLiquidity 4 1000 [] [Sample.monthly100] 90 (isoDate 2024 1 15) = Some forecast /\
    date (nth 16 forecast blank) = (2024, 1, 31) /\
    projectedBalance (nth 16 forecast blank) == projectedBalance (nth 15 forecast blank) - 100.
Proof.
  intros blank.
  destruct (forecast_example 0) as (forecast & H1 & _ & Hdate & _ & Hstep & _).
  exists forecast. split; [exact H1|]. split.
  - exact (Hdate 16%nat ltac:(lia)).
  - exact (Hstep 15%nat ltac:(lia)).
Defined.

(** ** Safe to spend *)

Lemma msPerDay_pos : 0 < msPerDay.
Proof. reflexivity. Qed.







(** ** Termination *)

(** A step of zero days never leaves the past. *)
Lemma nextOccurrenceFrom_zero_interval (fuel : nat) (now d : instant) :
  d < now -> nextOccurrenceFrom fuel now 0 d = None.
Proof.
  intros H. induction fuel as [|fuel IH]; simpl; unfold isBefore;
    destruct (d <? now) eqn:E; auto; try (apply Z.ltb_ge in E; lia).
  unfold addDays. rewrite Z.mul_0_l, Z.add_0_r. exact IH.
Qed.

(** C2 fails on the code: the rule "gym" matches two transactions of the
    same day, its entry has [intervalDays = 0] and a last charge before now,
    and the loop that looks for the next occurrence of that expense never
    ends: [calculateSafeToSpend] has no result, whatever the fuel. *)
Theorem calculateSafeToSpend_diverges (fuel : nat) :
  (exists e,
      detectRecurringTransactions Sample.now (filter isDebit Sample.sameDay) 2
        [Sample.gymRule] = [e] /\
      intervalDays e = 0 /\ lastCharged e < Sample.now) /\
  calculateSafeToSpend fuel Sample.now 2000 Sample.sameDay [Sample.gymRule] 500 = None.
Proof.
  split.
  - eexists. split; [vm_compute; reflexivity|]. split; reflexivity.
  - unfold calculateSafeToSpend.
    destruct (nextPaydayOf _ _ _) as [p|]; [|reflexivity].
    match goal with
    | |- context [reserveBills fuel ?n p ?l 0%Q] =>
        assert (Hnone : reserveBills fuel n p l 0%Q = None)
    end.
    { match goal with |- reserveBills _ _ _ ?l _ = _ =>
        let l' := eval vm_compute in l in change l with l' end.
      simpl. rewrite nextOccurrenceFrom_zero_interval; reflexivity. }
    now rewrite Hnone.
Qed.

(** * Further properties of the engine *)

(** ** The normalizer *)





















(** ** Sorting *)

Section SortedFacts.
Context {A : Type}.
Variable before : A -> A -> bool.
Hypothesis before_total : forall x y, before x y = false -> before y x = true.
Hypothesis before_trans :
  forall x y z, before x y = true -> before y z = true -> before x z = true.

Let R (x y : A) : Prop := before x y = true.

Lemma insertSorted_Permutation (a : A) (l : list A) :
  Permutation (a :: l) (insertSorted before a l).
Proof.
  induction l as [|y r IH]; simpl; auto.
  destruct (before a y); auto.
  eapply perm_trans; [apply perm_swap|]. now constructor.
Qed.

Lemma stableSort_Permutation (l : list A) : Permutation l (stableSort before l).
Proof.
  induction l as [|a r IH]; simpl; auto.
  eapply perm_trans; [|apply insertSorted_Permutation]. now constructor.
Qed.

Lemma insertSorted_StronglySorted (a : A) (l : list A) :
  StronglySorted R l -> StronglySorted R (insertSorted before a l).
Proof.
  induction 1 as [|y r Hs IH Hall]; simpl.
  - repeat constructor.
  - destruct (before a y) eqn:E.
    + constructor; [now constructor|]. constructor; [exact E|].
      rewrite Forall_forall in *. intros z Hz. eapply before_trans; [exact E|]. now apply Hall.
    + constructor; auto.
      rewrite Forall_forall in *. intros z Hz.
      apply insertSorted_In in Hz as [->|Hz]; [now apply before_total|now apply Hall].
Qed.

Lemma stableSort_StronglySorted (l : list A) : StronglySorted R (stableSort before l).
Proof.
  induction l as [|a r IH]; simpl; [constructor|].
  now apply insertSorted_StronglySorted.
Qed.
End SortedFacts.

Lemma byAmountDesc_total (x y : RecurringTransaction) :
  byAmountDesc x y = false -> byAmountDesc y x = true.
Proof.
  unfold byAmountDesc. intros H. apply Qle_bool_iff.
  destruct (Qlt_le_dec (amount x) (amount y)) as [Hlt|Hle]; [now apply Qlt_le_weak|].
  apply Qle_bool_iff in Hle. congruence.
Qed.

Lemma byAmountDesc_trans (x y z : RecurringTransaction) :
  byAmountDesc x y = true -> byAmountDesc y z = true -> byAmountDesc x z = true.
Proof.
  unfold byAmountDesc. rewrite !Qle_bool_iff. intros H1 H2.
  eapply Qle_trans; eassumption.
Qed.

(** The merged output of [detectRecurringTransactions] is in descending
    order of amount: every entry has an amount at least as large as each
    entry that follows it. *)
Theorem detectRecurringTransactions_sorted (now : instant)
    (transactions : list Transaction) (minOccurrences : Z)
    (manualRules : list ManualRecurringRule) :
  StronglySorted (fun a b => (amount b <= amount a)%Q)
    (detectRecurringTransactions now transactions minOccurrences manualRules).
Proof.
  unfold detectRecurringTransactions. cbv zeta.
  set (l := _ ++ _).
  pose proof (stableSort_StronglySorted byAmountDesc byAmountDesc_total byAmountDesc_trans l)
    as H.
  induction H as [|a r Hs IH Hall]; constructor; auto.
  rewrite Forall_forall in *. intros b Hb. apply Qle_bool_iff. now apply Hall.
Qed.

Lemma byDate_total (x y : Transaction) : byDate x y = false -> byDate y x = true.
Proof. unfold byDate. rewrite Z.leb_gt, Z.leb_le. lia. Qed.

Lemma byDate_trans (x y z : Transaction) :
  byDate x y = true -> byDate y z = true -> byDate x z = true.
Proof. unfold byDate. rewrite !Z.leb_le. lia. Qed.

Lemma StronglySorted_filter {A : Type} (R : A -> A -> Prop) (p : A -> bool) (l : list A) :
  StronglySorted R l -> StronglySorted R (filter p l).
Proof.
  induction 1 as [|a r Hs IH Hall]; simpl; [constructor|].
  destruct (p a); auto. constructor; auto.
  rewrite Forall_forall in *. intros x Hx. apply filter_In in Hx as [Hx _]. auto.
Qed.

(** ** Grouping *)

Lemma pushToGroup_keys (key : string) (t : Transaction) (groups : Groups) :
  map fst (pushToGroup key t groups)
  = if existsb (String.eqb key) (map fst groups) then map fst groups
    else map fst groups ++ [key].
Proof.
  induction groups as [|[k txns] rest IH]; simpl; auto.
  rewrite (String.eqb_sym key k).
  destruct (String.eqb k key); simpl; auto.
  rewrite IH. destruct (existsb _ _); reflexivity.
Qed.

Lemma pushToGroup_In (key : string) (t : Transaction) (groups : Groups)
    (k : string) (txns : list Transaction) :
  NoDup (map fst groups) ->
  In (k, txns) (pushToGroup key t groups) ->
  (k <> key /\ In (k, txns) groups) \/
  (k = key /\ exists before,
      txns = before ++ [t] /\
      (In (k, before) groups \/ (before = [] /\ ~ In key (map fst groups)))).
Proof.
  induction groups as [|[k0 txns0] rest IH]; simpl; intros Hnd H.
  - destruct H as [H|[]]. injection H as <- <-. right. split; auto.
    exists []. split; auto.
  - inversion Hnd as [|? ? Hnotin Hnd']; subst.
    destruct (String.eqb k0 key) eqn:E.
    + apply String.eqb_eq in E. subst k0.
      destruct H as [H|H].
      * injection H as <- <-. right. split; auto. exists txns0. auto.
      * left. split; auto. intros ->. apply Hnotin.
        apply (in_map fst) in H. exact H.
    + apply String.eqb_neq in E.
      destruct H as [H|H].
      * injection H as <- <-. left. auto.
      * destruct (IH Hnd' H) as [[Hne Hin]|(-> & before & -> & Hb)]; auto.
        right. split; auto. exists before. split; auto.
        destruct Hb as [Hb|[-> Hb]]; auto.
        right. split; auto. intros [F|F]; auto.
Qed.

Lemma filter_none {A : Type} (p : A -> bool) (l : list A) :
  (forall x, In x l -> p x = false) -> filter p l = [].
Proof.
  induction l as [|a r IH]; simpl; auto.
  intros H. rewrite (H a (or_introl eq_refl)). apply IH. auto.
Qed.

Lemma pushToGroup_invariant (t : Transaction) (groups : Groups) (seen : list Transaction) :
  groupsInvariant groups seen ->
  groupsInvariant (pushToGroup (keyOf t) t groups) (seen ++ [t]).
Proof.
  intros (Hnd & Hgroups & Hseen). unfold groupsInvariant.
  rewrite pushToGroup_keys. split; [|split].
  - destruct (existsb _ _) eqn:E; auto.
    apply NoDup_app; auto.
    + repeat constructor. intros [].
    + intros k Hk [<-|[]].
      assert (existsb (String.eqb (keyOf t)) (map fst groups) = true); [|congruence].
      apply existsb_exists. exists (keyOf t). split; auto. apply String.eqb_refl.
  - intros k txns H.
    apply (pushToGroup_In _ _ _ _ _ Hnd) in H.
    rewrite filter_app. simpl. unfold hasKey at 2.
    destruct H as [[Hne Hin]|(-> & before & -> & Hb)].
    + destruct (Hgroups _ _ Hin) as [H1 H2]. split; auto.
      assert (E : String.eqb (keyOf t) k = false) by (apply String.eqb_neq; congruence).
      rewrite E, app_nil_r. exact H2.
    + split; [destruct before; discriminate|].
      rewrite String.eqb_refl. f_equal.
      destruct Hb as [Hb|[-> Hb]]; [now apply Hgroups|].
      symmetry. apply filter_none.
      intros x Hx. unfold hasKey. apply String.eqb_neq.
      intros Heq. apply Hb. rewrite <- Heq. now apply Hseen.
  - intros x Hx. apply in_app_or in Hx as [Hx|[<-|[]]].
    + destruct (existsb _ _); [|apply in_or_app; left]; now apply Hseen.
    + destruct (existsb _ _) eqn:E.
      * apply existsb_exists in E as (k & Hk & E). apply String.eqb_eq in E. now subst.
      * apply in_or_app. right. now left.
Qed.

Lemma fold_pushToGroup_invariant (l : list Transaction) (groups : Groups)
    (seen : list Transaction) :
  groupsInvariant groups seen ->
  groupsInvariant
    (fold_left (fun gs t => pushToGroup (normalizeDescription (tx_description t)) t gs)
       l groups)
    (seen ++ l).
Proof.
  revert groups seen. induction l as [|t r IH]; intros groups seen H; simpl.
  - now rewrite app_nil_r.
  - replace (seen ++ t :: r) with ((seen ++ [t]) ++ r) by now rewrite <- app_assoc.
    apply IH. now apply pushToGroup_invariant.
Qed.

Lemma descriptionGroups_filter (sorted : list Transaction) :
  NoDup (map fst (descriptionGroups sorted)) /\
  (forall k txns, In (k, txns) (descriptionGroups sorted) ->
     txns <> [] /\
     txns = filter (fun t => String.eqb (normalizeDescription (tx_description t)) k) sorted) /\
  (forall t, In t sorted ->
     exists txns, In (normalizeDescription (tx_description t), txns) (descriptionGroups sorted)
                  /\ In t txns).
Proof.
  destruct (fold_pushToGroup_invariant sorted [] []) as (Hnd & Hgroups & Hseen).
  { split; [constructor|]. split; [intros ? ? []|intros ? []]. }
  simpl in Hgroups, Hseen. fold (descriptionGroups sorted) in *.
  split; [exact Hnd|]. split; [exact Hgroups|].
  intros t Ht. specialize (Hseen t Ht).
  apply in_map_iff in Hseen as ([k txns] & Hk & Hin). simpl in Hk. subst k.
  exists txns. split; [exact Hin|].
  destruct (Hgroups _ _ Hin) as [_ ->]. apply filter_In. split; auto.
  apply String.eqb_refl.
Qed.

(** The groups of [descriptionGroups] partition the list by normalized
    description: the keys are pairwise distinct, every transaction has a
    group under its key, and the group of a key is, in order, exactly the
    transactions of the list with that key (so it is never empty). *)
Theorem descriptionGroups_partition (sorted : list Transaction) :
  NoDup (map fst (descriptionGroups sorted)) /\
  (forall k txns, In (k, txns) (descriptionGroups sorted) ->
     txns <> [] /\
     txns = filter (fun t => String.eqb (normalizeDescription (tx_description t)) k) sorted) /\
  (forall t, In t sorted ->
     exists txns, In (normalizeDescription (tx_description t), txns) (descriptionGroups sorted)
                  /\ In t txns).
Proof.
  destruct (fold_pushToGroup_invariant sorted [] []) as (Hnd & Hgroups & Hseen).
  { split; [constructor|]. split; [intros ? ? []|intros ? []]. }
  simpl in Hgroups, Hseen. fold (descriptionGroups sorted) in *.
  split; [exact Hnd|]. split; [exact Hgroups|].
  intros t Ht. specialize (Hseen t Ht).
  apply in_map_iff in Hseen as ([k txns] & Hk & Hin). simpl in Hk. subst k.
  exists txns. split; [exact Hin|].
  destruct (Hgroups _ _ Hin) as [_ ->]. apply filter_In. split; auto.
  apply String.eqb_refl.
Qed.

(** ** Automatic entries and their groups *)

Lemma lastOf_cons {A : Type} (a : A) (r : list A) :
  lastOf (a :: r) = match r with [] => Some a | _ :: _ => lastOf r end.
Proof.
  unfold lastOf. simpl. destruct r as [|b r']; [reflexivity|].
  destruct (rev (b :: r')) as [|x l] eqn:E; [|reflexivity].
  apply (f_equal (@List.length A)) in E. rewrite length_rev in E. discriminate.
Qed.

Lemma sorted_lastOf_latest (txns : list Transaction) (x : Transaction) :
  StronglySorted (fun a b => byDate a b = true) txns ->
  lastOf txns = Some x ->
  forall t, In t txns -> tradeDate t <= tradeDate x.
Proof.
  induction 1 as [|a r Hs IH Hall]; [discriminate|].
  rewrite lastOf_cons. intros Hlast t [<-|Ht].
  - destruct r as [|b r'].
    + injection Hlast as <-. lia.
    + rewrite Forall_forall in Hall. apply Z.leb_le. apply Hall. now apply lastOf_In.
  - destruct r as [|b r']; [contradiction|]. now apply IH.
Qed.

Lemma sorted_intervals_nonneg (txns : list Transaction) :
  StronglySorted (fun a b => byDate a b = true) txns ->
  forall i, In i (intervalsOf txns) -> 0 <= i.
Proof.
  induction 1 as [|a r Hs IH Hall]; [intros ? []|].
  destruct r as [|b r']; [intros ? []|].
  intros i [<-|Hi]; [|now apply IH].
  rewrite Forall_forall in Hall. specialize (Hall b (or_introl eq_refl)).
  apply Z.leb_le in Hall. unfold differenceInDays.
  apply Z.quot_pos; [lia|reflexivity].
Qed.

Lemma filter_length_Permutation {A : Type} (p : A -> bool) (l l' : list A) :
  Permutation l l' -> List.length (filter p l) = List.length (filter p l').
Proof.
  induction 1; simpl; auto.
  - destruct (p x); simpl; auto.
  - destruct (p x), (p y); simpl; auto.
  - congruence.
Qed.

(** The groups the detector analyses are those of the unmatched
    transactions in order of date. *)
Lemma automatic_entry_of_group (now : instant) (transactions : list Transaction)
    (minOccurrences : Z) (manualRules : list ManualRecurringRule)
    (e : RecurringTransaction) :
  In e (detectRecurringTransactions now transactions minOccurrences manualRules) ->
  ruleId e = None ->
  exists k txns,
    In (k, txns)
       (descriptionGroups
          (stableSort byDate
             (remainingTransactions
                (detectManualRecurringTransactions now transactions manualRules)
                transactions))) /\
    analyzeGroup now minOccurrences txns = Some e.
Proof.
  intros Hin Hnone. apply detectRecurringTransactions_In in Hin. cbv zeta in Hin.
  destruct Hin as [[Hin _]|Hin].
  - apply detectManual_entry in Hin as (rule & _ & _ & Hid & _). congruence.
  - apply automaticResults_In in Hin as ([k txns] & Hg & Ha). eauto.
Qed.

(** An automatic entry stands for all the transactions that no manual
    rule matched and that share its normalized description: its identifiers
    are theirs in order of date, its [occurrences] is their number, and its
    [lastCharged] is the latest of their dates. *)
Theorem automatic_entry_covers_its_key (now : instant) (transactions : list Transaction)
    (minOccurrences : Z) (manualRules : list ManualRecurringRule)
    (e : RecurringTransaction) :
  In e (detectRecurringTransactions now transactions minOccurrences manualRules) ->
  ruleId e = None ->
  let remaining :=
    remainingTransactions
      (detectManualRecurringTransactions now transactions manualRules) transactions in
  let sameKey := fun t =>
    String.eqb (normalizeDescription (tx_description t))
               (normalizeDescription (description e)) in
  transactionIds e = map tx_id (filter sameKey (stableSort byDate remaining)) /\
  occurrences e = Z.of_nat (List.length (filter sameKey remaining)) /\
  (exists t, In t remaining /\ sameKey t = true /\ tradeDate t = lastCharged e) /\
  (forall t, In t remaining -> sameKey t = true -> tradeDate t <= lastCharged e).
Proof.
  intros Hin Hnone remaining sameKey.
  destruct (automatic_entry_of_group _ _ _ _ _ Hin Hnone) as (k & txns & Hg & Ha).
  fold remaining in Hg.
  destruct (descriptionGroups_filter (stableSort byDate remaining))
    as (_ & Hgroups & _).
  destruct (Hgroups _ _ Hg) as [Hne Htx].
  invert_analyzeGroup Ha. simpl in sameKey |- *.
  assert (Hk : normalizeDescription (tx_description lastTransaction) = k).
  { apply lastOf_In in Hlast. rewrite Htx in Hlast.
    apply filter_In in Hlast as [_ Hk]. now apply String.eqb_eq. }
  assert (Hsame : txns = filter sameKey (stableSort byDate remaining)).
  { rewrite Htx at 1. unfold sameKey. now rewrite Hk. }
  assert (Hsorted : StronglySorted (fun a b => byDate a b = true) txns).
  { rewrite Hsame. apply StronglySorted_filter.
    apply stableSort_StronglySorted; [apply byDate_total|apply byDate_trans]. }
  split; [now rewrite <- Hsame|]. split; [|split].
  - rewrite Hsame at 1. f_equal. apply filter_length_Permutation.
    apply Permutation_sym, stableSort_Permutation.
  - exists lastTransaction. apply lastOf_In in Hlast. rewrite Hsame in Hlast.
    apply filter_In in Hlast as [Hl1 Hl2]. apply stableSort_In in Hl1. auto.
  - intros t Ht Hs. apply (sorted_lastOf_latest txns); auto.
    rewrite Hsame. apply filter_In. split; auto. now apply stableSort_In.
Qed.

Lemma automatic_entry_covers_its_key_witness :
  exists e,
    In e (detectRecurringTransactions Sample.now (Sample.gym ++ Sample.rent) 3 []) /\
    occurrences e = 3 /\ lastCharged e = isoDate 2024 2 1.
Proof.
  pose (e := hd Sample.monthly100
               (detectRecurringTransactions Sample.now (Sample.gym ++ Sample.rent) 3 [])).
  assert (Hin : In e (detectRecurringTransactions Sample.now (Sample.gym ++ Sample.rent) 3 []))
    by (vm_compute; left; reflexivity).
  exists e. split; [exact Hin|].
  destruct (automatic_entry_covers_its_key _ _ _ _ e Hin eq_refl) as (_ & Hocc & _).
  split; [rewrite Hocc|]; reflexivity.
Defined.

(** Two automatic entries of one output never share a normalized
    description: there is one entry per group at most. *)
Theorem automatic_entries_distinct_keys (now : instant) (transactions : list Transaction)
    (minOccurrences : Z) (manualRules : list ManualRecurringRule)
    (e1 e2 : RecurringTransaction) :
  In e1 (detectRecurringTransactions now transactions minOccurrences manualRules) ->
  In e2 (detectRecurringTransactions now transactions minOccurrences manualRules) ->
  ruleId e1 = None -> ruleId e2 = None ->
  normalizeDescription (description e1) = normalizeDescription (description e2) ->
  e1 = e2.
Proof.
  intros H1 H2 N1 N2 Hk.
  destruct (automatic_entry_of_group _ _ _ _ _ H1 N1) as (k1 & t1 & G1 & A1).
  destruct (automatic_entry_of_group _ _ _ _ _ H2 N2) as (k2 & t2 & G2 & A2).
  set (sorted := stableSort byDate _) in *.
  destruct (descriptionGroups_filter sorted) as (_ & Hgroups & _).
  destruct (Hgroups _ _ G1) as [_ E1]. destruct (Hgroups _ _ G2) as [_ E2].
  assert (K : forall k txns e, txns = filter
                (fun t => String.eqb (normalizeDescription (tx_description t)) k) sorted ->
              analyzeGroup now minOccurrences txns = Some e ->
              normalizeDescription (description e) = k).
  { intros k txns e E A. invert_analyzeGroup A. simpl.
    apply lastOf_In in Hlast. rewrite E in Hlast.
    apply filter_In in Hlast as [_ Hl]. now apply String.eqb_eq. }
  assert (k1 = k2).
  { rewrite <- (K _ _ _ E1 A1), <- (K _ _ _ E2 A2). exact Hk. }
  subst k2. rewrite <- E1 in E2. subst t2. congruence.
Qed.

Lemma automatic_entries_distinct_keys_witness :
  hd Sample.monthly100 (detectRecurringTransactions Sample.now Sample.gym 3 [])
  = nth 0 (detectRecurringTransactions Sample.now Sample.gym 3 []) Sample.monthly100.
Proof.
  apply (automatic_entries_distinct_keys Sample.now Sample.gym 3 []).
  - vm_compute. left. reflexivity.
  - vm_compute. left. reflexivity.
  - reflexivity.
  - reflexivity.
  - reflexivity.
Defined.

(** An automatic entry is never older than twice its interval plus one
    day: [differenceInDays(now, lastCharged) <= 2 * intervalDays + 1]. *)
Theorem automatic_entry_is_fresh (now : instant) (transactions : list Transaction)
    (minOccurrences : Z) (manualRules : list ManualRecurringRule)
    (e : RecurringTransaction) :
  In e (detectRecurringTransactions now transactions minOccurrences manualRules) ->
  ruleId e = None ->
  differenceInDays now (lastCharged e) <= 2 * intervalDays e + 1.
Proof.
  intros Hin Hnone.
  destruct (automatic_entry_of_group _ _ _ _ _ Hin Hnone) as (k & txns & _ & Ha).
  invert_analyzeGroup Ha. cbn [lastCharged intervalDays].
  pose proof (Qlt_floor (avg + (1 # 2))) as Hfl. fold (Math_round avg) in Hfl.
  rewrite inject_Z_plus in Hfl. change (inject_Z 1) with 1%Q in Hfl.
  assert (H : (inject_Z (differenceInDays now (tradeDate lastTransaction))
               < inject_Z (2 * Math_round avg + 2))%Q).
  { rewrite inject_Z_plus, inject_Z_mult.
    change (inject_Z 2) with 2%Q.
    lra. }
  rewrite <- Zlt_Qlt in H. lia.
Qed.

Lemma automatic_entry_is_fresh_witness :
  differenceInDays Sample.now
    (lastCharged (hd Sample.monthly100
                    (detectRecurringTransactions Sample.now Sample.gym 3 [])))
  <= 63.
Proof.
  apply (automatic_entry_is_fresh Sample.now Sample.gym 3 []).
  - vm_compute. left. reflexivity.
  - reflexivity.
Defined.

(** ** Groups with a constant interval *)

Lemma intervalsOf_length (txns : list Transaction) :
  List.length (intervalsOf txns) = (List.length txns - 1)%nat.
Proof.
  induction txns as [|a r IH]; [reflexivity|].
  destruct r as [|b r']; [reflexivity|].
  change (intervalsOf (a :: b :: r'))
    with (differenceInDays (tradeDate b) (tradeDate a) :: intervalsOf (b :: r')).
  simpl List.length in *. lia.
Qed.






Lemma Qsum_acc (l : list Q) (a : Q) : fold_left Qplus l a == a + Qsum l.
Proof.
  unfold Qsum. revert a. induction l as [|x r IH]; simpl; intros a; [lra|].
  rewrite IH, (IH (0 + x)%Q). lra.
Qed.


Lemma fold_Qmax_constant (r : list Q) (a c : Q) :
  a == c -> (forall x, In x r -> x == c) -> fold_left Qmax r a == c.
Proof.
  revert a. induction r as [|b r IH]; simpl; intros a Ha H; auto.
  apply IH; [|intros; apply H; now right].
  assert (Hb : b == c) by (apply H; now left).
  rewrite Ha, Hb. apply Q.max_id.
Qed.

Lemma fold_Qmin_constant (r : list Q) (a c : Q) :
  a == c -> (forall x, In x r -> x == c) -> fold_left Qmin r a == c.
Proof.
  revert a. induction r as [|b r IH]; simpl; intros a Ha H; auto.
  apply IH; [|intros; apply H; now right].
  assert (Hb : b == c) by (apply H; now left).
  rewrite Ha, Hb. apply Q.min_id.
Qed.

Lemma sliceLast_In {A : Type} (n : nat) (l : list A) (x : A) :
  In x (sliceLast n l) -> In x l.
Proof.
  unfold sliceLast. intros H.
  rewrite <- (firstn_skipn (List.length l - n) l). apply in_or_app. now right.
Qed.




(** ** Manual rules and the merge *)

Lemma ruleResults_ids (now : instant) (transactions : list Transaction)
    (rule : ManualRecurringRule) (e : RecurringTransaction) (i : string) :
  In e (ruleResults now transactions rule) -> In i (transactionIds e) ->
  exists t, In t transactions /\ matchesRule rule t = true /\ tx_id t = i.
Proof.
  intros He Hi. apply ruleResults_cases in He.
  destruct He as [[_ ->]|(lastTransaction & _ & [[_ ->]|[_ ->]])]; simpl in Hi;
    try contradiction;
    apply in_map_iff in Hi as (t & <- & Ht); apply stableSort_In in Ht;
    apply filter_In in Ht as [? ?]; eauto.
Qed.

(** No double counting: a transaction identifier listed by an entry of the
    manual matcher (exclusion or not) is listed by no automatic entry of the
    merged output. *)
Theorem manual_ids_not_in_automatic (now : instant) (transactions : list Transaction)
    (minOccurrences : Z) (manualRules : list ManualRecurringRule)
    (m e : RecurringTransaction) (i : string) :
  In m (detectManualRecurringTransactions now transactions manualRules) ->
  In i (transactionIds m) ->
  In e (detectRecurringTransactions now transactions minOccurrences manualRules) ->
  ruleId e = None ->
  ~ In i (transactionIds e).
Proof.
  intros Hm Hi He Hnone Hie.
  destruct (output_without_ruleId _ _ _ _ _ He Hnone) as (txns & Ha & Hall).
  invert_analyzeGroup Ha. simpl in Hie.
  apply in_map_iff in Hie as (t & <- & Ht).
  destruct (Hall t Ht) as [_ Hnot]. apply Hnot.
  apply in_flat_map. exists m. auto.
Qed.

Lemma manual_ids_not_in_automatic_witness :
  ~ In "g1"%string
      (transactionIds
         (hd Sample.monthly100
            (detectRecurringTransactions Sample.now (Sample.gym ++ Sample.rent) 3
               [Sample.gymRule]))).
Proof.
  apply (manual_ids_not_in_automatic Sample.now (Sample.gym ++ Sample.rent) 3
           [Sample.gymRule]
           (nth 1 (detectRecurringTransactions Sample.now (Sample.gym ++ Sample.rent) 3
                     [Sample.gymRule]) Sample.monthly100)).
  - vm_compute. left. reflexivity.
  - vm_compute. left. reflexivity.
  - vm_compute. left. reflexivity.
  - reflexivity.
Defined.

(** Every identifier listed by an entry of the merged output is the
    identifier of a transaction of the input. *)
Theorem output_ids_from_input (now : instant) (transactions : list Transaction)
    (minOccurrences : Z) (manualRules : list ManualRecurringRule)
    (e : RecurringTransaction) (i : string) :
  In e (detectRecurringTransactions now transactions minOccurrences manualRules) ->
  In i (transactionIds e) ->
  exists t, In t transactions /\ tx_id t = i.
Proof.
  intros He Hi. apply detectRecurringTransactions_In in He. cbv zeta in He.
  destruct He as [[He _]|He].
  - apply detectManual_In in He as (rule & _ & _ & He).
    destruct (ruleResults_ids _ _ _ _ _ He Hi) as (t & Ht & _ & Hid). eauto.
  - apply automatic_entry in He as (txns & Ha & Hall).
    invert_analyzeGroup Ha. simpl in Hi.
    apply in_map_iff in Hi as (t & <- & Ht). exists t. split; auto. now apply Hall.
Qed.

Lemma output_ids_from_input_witness :
  exists t, In t Sample.gym /\ tx_id t = "g2"%string.
Proof.
  apply (output_ids_from_input Sample.now Sample.gym 3 []
           (hd Sample.monthly100 (detectRecurringTransactions Sample.now Sample.gym 3 []))).
  - vm_compute. left. reflexivity.
  - vm_compute. right. left. reflexivity.
Defined.

(** With no transaction at all, the output is one projected entry for each
    enabled rule that has an expected amount or a pattern, whatever the
    direction of the rule, and nothing else. *)
Theorem no_transactions_only_projections (now : instant) (minOccurrences : Z)
    (manualRules : list ManualRecurringRule) (e : RecurringTransaction) :
  In e (detectRecurringTransactions now [] minOccurrences manualRules) <->
  exists rule,
    In rule manualRules /\ enabled rule = true /\
    (truthyQ (expectedAmount rule) || truthyString (descriptionPattern rule)) = true /\
    e = projectedEntry now rule.
Proof.
  rewrite detectRecurringTransactions_In. cbv zeta.
  split.
  - intros [[He _]|He].
    + apply detectManual_In in He as (rule & H1 & H2 & He).
      exists rule. unfold ruleResults in He. simpl in He.
      destruct (_ || _) eqn:E; [|contradiction].
      destruct He as [<-|[]]. auto.
    + unfold remainingTransactions in He. simpl in He. contradiction.
  - intros (rule & H1 & H2 & H3 & ->). left. split; [|reflexivity].
    apply detectManual_In. exists rule. repeat split; auto.
    unfold ruleResults. simpl. rewrite H3. now left.
Qed.

Lemma includes_empty (s : string) : includes s EmptyString = true.
Proof. destruct s; reflexivity. Qed.

(** A rule whose pattern has no letter or underscore (its normalized form
    is empty) and that has no category, day or amount constraint matches
    every transaction of its direction. *)
Theorem letterless_pattern_matches_all (rule : ManualRecurringRule) (t : Transaction) :
  normalizeDescription (descriptionPattern rule) = EmptyString ->
  truthyOptString (rule_category rule) = false ->
  truthyZ (dayRangeStart rule) = false ->
  truthyZ (dayRangeEnd rule) = false ->
  truthyQ (expectedAmount rule) = false ->
  tx_type t = rule_type rule ->
  matchesRule rule t = true.
Proof.
  intros Hp Hc Hs He Ha Hty. unfold matchesRule.
  rewrite Hty, Hp, includes_empty, Hc, Hs, He.
  assert (Hrefl : TxType_eqb (rule_type rule) (rule_type rule) = true)
    by (destruct (rule_type rule); reflexivity).
  rewrite Hrefl. cbn [negb andb orb].
  destruct (expectedAmount rule) as [q|]; [|reflexivity].
  destruct (amountTolerance rule); [|reflexivity].
  now rewrite Ha.
Qed.

Lemma letterless_pattern_matches_all_witness :
  matchesRule (Sample.rule "rule-n" "2024-*" DEBIT None)
    (Sample.tx "r1" (isoDate 2023 12 1) "Rent" 300 DEBIT) = true.
Proof.
  apply letterless_pattern_matches_all; reflexivity.
Defined.

Lemma filter_all {A : Type} (p : A -> bool) (l : list A) :
  (forall x, In x l -> p x = true) -> filter p l = l.
Proof.
  induction l as [|a r IH]; simpl; auto.
  intros H. rewrite (H a (or_introl eq_refl)). f_equal. apply IH. auto.
Qed.

(** An enabled exclusion rule that matches every transaction of a
    non-empty input leaves nothing: the merged output is empty. *)
Theorem exclusion_of_everything (now : instant) (transactions : list Transaction)
    (minOccurrences : Z) (rule : ManualRecurringRule) :
  transactions <> [] ->
  enabled rule = true -> rule_isExclude rule = Some true ->
  (forall t, In t transactions -> matchesRule rule t = true) ->
  detectRecurringTransactions now transactions minOccurrences [rule] = [].
Proof.
  intros Hne Hen Hex Hall.
  destruct (lastOf_nonempty (stableSort byDate transactions)) as [lastTransaction Hlast].
  { intros E. apply (f_equal (@List.length _)) in E.
    rewrite stableSort_length in E. destruct transactions; [congruence|discriminate]. }
  assert (Hman : detectManualRecurringTransactions now transactions [rule]
                 = [exclusionEntry rule (stableSort byDate transactions) lastTransaction]).
  { unfold detectManualRecurringTransactions. cbn [filter]. rewrite Hen.
    cbn [flat_map]. rewrite app_nil_r.
    unfold ruleResults. rewrite (filter_all _ _ Hall).
    destruct transactions as [|t0 rest]; [congruence|].
    rewrite Hlast, Hex. reflexivity. }
  assert (Hrem : remainingTransactions
                   [exclusionEntry rule (stableSort byDate transactions) lastTransaction]
                   transactions = []).
  { unfold remainingTransactions. apply filter_none. intros t Ht.
    apply negb_false_iff. apply existsb_exists. exists (tx_id t).
    split; [|apply String.eqb_refl].
    simpl. rewrite app_nil_r. apply in_map. now apply stableSort_In. }
  unfold detectRecurringTransactions. cbv zeta. rewrite Hman, Hrem. reflexivity.
Qed.

Lemma exclusion_of_everything_witness :
  detectRecurringTransactions Sample.now Sample.gym 3 [Sample.gymExclusion] = [].
Proof.
  apply exclusion_of_everything.
  - discriminate.
  - reflexivity.
  - reflexivity.
  - intros t [<-|[<-|[<-|[]]]]; reflexivity.
Defined.

(** ** Amounts *)

Lemma Qsum_nonneg (l : list Q) : (forall a, In a l -> (0 <= a)%Q) -> (0 <= Qsum l)%Q.
Proof.
  induction l as [|x r IH]; intros H.
  - unfold Qsum. simpl. lra.
  - unfold Qsum. cbn [fold_left]. rewrite Qsum_acc.
    assert (0 <= x)%Q by (apply H; now left).
    assert (0 <= Qsum r)%Q by (apply IH; intros; apply H; now right).
    lra.
Qed.

Lemma Qdiv_nonneg (a b : Q) : (0 <= a)%Q -> (0 <= b)%Q -> (0 <= a / b)%Q.
Proof.
  intros Ha Hb. unfold Qdiv. apply Qmult_le_0_compat; auto.
  now apply Qinv_le_0_compat.
Qed.

Lemma average_nonneg (l : list Q) :
  (forall a, In a l -> (0 <= a)%Q) ->
  (0 <= Qsum l / inject_Z (Z.of_nat (List.length l)))%Q.
Proof.
  intros H. apply Qdiv_nonneg; [now apply Qsum_nonneg|].
  change 0%Q with (inject_Z 0). rewrite <- Zle_Qle. lia.
Qed.

Lemma orQ_nonneg (o : option Q) (d : Q) :
  (forall q, o = Some q -> (0 <= q)%Q) -> (0 <= d)%Q -> (0 <= orQ o d)%Q.
Proof.
  intros Ho Hd. unfold orQ. destruct o as [q|]; auto.
  destruct (Qeq_bool q 0); auto.
Qed.

Lemma ruleResults_last (now : instant) (transactions : list Transaction)
    (rule : ManualRecurringRule) (e : RecurringTransaction) :
  In e (ruleResults now transactions rule) ->
  let matched := stableSort byDate (filter (matchesRule rule) transactions) in
  e = projectedEntry now rule \/
  exists lastTransaction,
    lastOf matched = Some lastTransaction /\
    (e = exclusionEntry rule matched lastTransaction \/
     e = matchedEntry rule matched lastTransaction).
Proof.
  intros H matched. unfold ruleResults in H.
  destruct (filter (matchesRule rule) transactions) as [|t r] eqn:Hm.
  - left. destruct (_ && _); [|contradiction]. destruct H as [<-|[]]. reflexivity.
  - right. fold matched in H.
    destruct (lastOf matched) as [lastTransaction|]; [|contradiction].
    exists lastTransaction. split; [reflexivity|].
    destruct (truthyBool (rule_isExclude rule)); destruct H as [<-|[]]; auto.
Qed.

Lemma detect_amounts_nonneg (now : instant) (transactions : list Transaction)
    (minOccurrences : Z) (manualRules : list ManualRecurringRule)
    (e : RecurringTransaction) :
  (forall t, In t transactions -> (0 <= tx_amount t)%Q) ->
  (forall rule q, In rule manualRules -> expectedAmount rule = Some q -> (0 <= q)%Q) ->
  In e (detectRecurringTransactions now transactions minOccurrences manualRules) ->
  (0 <= amount e)%Q.
Proof.
  intros Htx Hrules He. apply detectRecurringTransactions_In in He. cbv zeta in He.
  destruct He as [[He _]|He].
  - apply detectManual_In in He as (rule & Hr & _ & He).
    assert (Hexp : forall q, expectedAmount rule = Some q -> (0 <= q)%Q)
      by (intros; eapply Hrules; eauto).
    set (matched := stableSort byDate (filter (matchesRule rule) transactions)).
    assert (Hm : forall t, In t matched -> (0 <= tx_amount t)%Q).
    { intros t Ht. apply stableSort_In in Ht. apply filter_In in Ht as [Ht _]. auto. }
    apply ruleResults_last in He. fold matched in He.
    destruct He as [-> | (lastTransaction & Hlast & [-> | ->])]; simpl.
    + apply orQ_nonneg; auto. lra.
    + lra.
    + destruct (useAverage rule).
      * apply average_nonneg. intros a Ha. apply in_map_iff in Ha as (t & <- & Ht). auto.
      * apply orQ_nonneg; auto. apply Hm. now apply lastOf_In.
  - apply automatic_entry in He as (txns & Ha & Hall).
    invert_analyzeGroup Ha. simpl. unfold representativeAmount. cbv zeta.
    destruct (Qlt_bool _ _).
    + apply average_nonneg. intros a Ha. apply in_map_iff in Ha as (t & <- & Ht).
      apply Htx. apply Hall. now apply sliceLast_In in Ht.
    + apply Htx. apply Hall. now apply lastOf_In.
Qed.

(** Amounts stay magnitudes: when no transaction has a negative amount and
    no rule a negative expected amount, no entry of the merged output has a
    negative amount. *)
Theorem output_amounts_nonnegative (now : instant) (transactions : list Transaction)
    (minOccurrences : Z) (manualRules : list ManualRecurringRule)
    (e : RecurringTransaction) :
  (forall t, In t transactions -> (0 <= tx_amount t)%Q) ->
  (forall rule q, In rule manualRules -> expectedAmount rule = Some q -> (0 <= q)%Q) ->
  In e (detectRecurringTransactions now transactions minOccurrences manualRules) ->
  (0 <= amount e)%Q.
Proof.
  intros Htx Hrules He. apply detectRecurringTransactions_In in He. cbv zeta in He.
  destruct He as [[He _]|He].
  - apply detectManual_In in He as (rule & Hr & _ & He).
    assert (Hexp : forall q, expectedAmount rule = Some q -> (0 <= q)%Q)
      by (intros; eapply Hrules; eauto).
    set (matched := stableSort byDate (filter (matchesRule rule) transactions)).
    assert (Hm : forall t, In t matched -> (0 <= tx_amount t)%Q).
    { intros t Ht. apply stableSort_In in Ht. apply filter_In in Ht as [Ht _]. auto. }
    apply ruleResults_last in He. fold matched in He.
    destruct He as [-> | (lastTransaction & Hlast & [-> | ->])]; simpl.
    + apply orQ_nonneg; auto. lra.
    + lra.
    + destruct (useAverage rule).
      * apply average_nonneg. intros a Ha. apply in_map_iff in Ha as (t & <- & Ht). auto.
      * apply orQ_nonneg; auto. apply Hm. now apply lastOf_In.
  - apply automatic_entry in He as (txns & Ha & Hall).
    invert_analyzeGroup Ha. simpl. unfold representativeAmount. cbv zeta.
    destruct (Qlt_bool _ _).
    + apply average_nonneg. intros a Ha. apply in_map_iff in Ha as (t & <- & Ht).
      apply Htx. apply Hall. now apply sliceLast_In in Ht.
    + apply Htx. apply Hall. now apply lastOf_In.
Qed.

Lemma output_amounts_nonnegative_witness :
  (0 <= amount (hd Sample.monthly100
                  (detectRecurringTransactions Sample.now Sample.gym 3 [])))%Q.
Proof.
  apply (output_amounts_nonnegative Sample.now Sample.gym 3 []).
  - intros t [<-|[<-|[<-|[]]]]; vm_compute; discriminate.
  - intros rule q [].
  - vm_compute. left. reflexivity.
Defined.

(** ** Substrings *)

Lemma prefix_spec (p s : string) :
  prefix p s = true <-> exists b, s = (p ++ b)%string.
Proof.
  revert s. induction p as [|c p IH]; intros s.
  - split; [intros _; exists s; reflexivity|]. intros _. destruct s; reflexivity.
  - destruct s as [|c' s']; simpl.
    + split; [discriminate|intros [b Hb]; discriminate].
    + destruct (ascii_dec c c') as [<-|Hne].
      * rewrite IH. split; intros [b Hb]; exists b; [now rewrite Hb|now injection Hb].
      * split; [discriminate|]. intros [b Hb]. injection Hb as <- _. congruence.
Qed.

(** [includes s p] holds exactly when [p] occurs somewhere in [s]. *)
Lemma includes_spec (s p : string) :
  includes s p = true <-> exists a b, s = (a ++ p ++ b)%string.
Proof.
  induction s as [|c r IH].
  - unfold includes. rewrite orb_false_r, prefix_spec. split.
    + intros [b Hb]. exists EmptyString, b. exact Hb.
    + intros (a & b & H). destruct a as [|? ?]; [|discriminate]. exists b. exact H.
  - change (includes (String c r) p) with (prefix p (String c r) || includes r p).
    rewrite orb_true_iff, IH, prefix_spec.
    split.
    + intros [[b Hb]|(a & b & ->)].
      * exists EmptyString, b. exact Hb.
      * exists (String c a), b. reflexivity.
    + intros (a & b & H). destruct a as [|c' a'].
      * left. exists b. exact H.
      * right. simpl in H. injection H as _ ->. eauto.
Qed.

(** ** Subscriptions *)

(** [identifySubscriptions] keeps, in order, the entries whose description
    holds none of the housing keywords as a substring, in any letter case
    (so also those where the keyword is part of a longer word), and leaves
    out all the others; each kept entry is unchanged and carries its amount
    times the multiplier of its frequency. *)
Theorem identifySubscriptions_spec (recurringTransactions : list RecurringTransaction) :
  let housing := fun rt =>
    exists keyword a b,
      In keyword housingKeywords /\
      toLowerCase (description rt) = (a ++ keyword ++ b)%string in
  (forall s, In s (identifySubscriptions recurringTransactions) ->
     In (sub_entry s) recurringTransactions /\
     ~ housing (sub_entry s) /\
     monthlyEquivalent s = (amount (sub_entry s) * multiplier (frequency (sub_entry s)))%Q) /\
  (forall rt, In rt recurringTransactions -> ~ housing rt ->
     In rt (map sub_entry (identifySubscriptions recurringTransactions))) /\
  (exists kept, map sub_entry (identifySubscriptions recurringTransactions)
                = filter kept recurringTransactions).
Proof.
  intros housing.
  assert (Hh : forall rt, isHousing rt = true <-> housing rt).
  { intros rt. unfold isHousing, housing. cbv zeta. rewrite existsb_exists. split.
    - intros (k & Hk & H). apply includes_spec in H as (a & b & H). eauto.
    - intros (k & a & b & Hk & H). exists k. split; auto.
      apply includes_spec. eauto. }
  unfold identifySubscriptions. split; [|split].
  - intros s Hs. apply in_map_iff in Hs as (rt & <- & Hrt).
    apply filter_In in Hrt as [Hin Hn]. simpl. repeat split; auto.
    intros H. apply Hh in H. rewrite H in Hn. discriminate.
  - intros rt Hin Hn. rewrite map_map. simpl. rewrite map_id.
    apply filter_In. split; auto.
    destruct (isHousing rt) eqn:E; auto. exfalso. apply Hn, Hh, E.
  - exists (fun rt => negb (isHousing rt)). rewrite map_map. simpl. apply map_id.
Qed.

(** A debit called "Parent club" holds "rent" and is left out. *)
Lemma identifySubscriptions_spec_witness :
  identifySubscriptions
    [ {| description := "Parent club"; category := "General"; amount := 20;
         frequency := monthly; intervalDays := 30; lastCharged := 0; occurrences := 3;
         transactionIds := []; isExclude := None; ruleId := None |} ] = [].
Proof.
  destruct (identifySubscriptions_spec
              [ {| description := "Parent club"; category := "General"; amount := 20;
                   frequency := monthly; intervalDays := 30; lastCharged := 0;
                   occurrences := 3; transactionIds := []; isExclude := None;
                   ruleId := None |} ]) as (H & _ & _).
  destruct (identifySubscriptions _) as [|s r] eqn:E; [reflexivity|].
  destruct (H s (or_introl eq_refl)) as (Hin & Hn & _).
  exfalso. apply Hn. destruct Hin as [<-|[]].
  exists "rent"%string, "pa"%string, " club"%string. split; [now left|reflexivity].
Defined.

Lemma burnRate_acc (subscriptions : list SubscriptionItem) (a : Q) :
  fold_left (fun total sub => (total + monthlyEquivalent sub)%Q) subscriptions a
  == a + calculateSubscriptionBurnRate subscriptions.
Proof.
  unfold calculateSubscriptionBurnRate. revert a.
  induction subscriptions as [|s r IH]; intros a; cbn [fold_left]; [lra|].
  rewrite IH, (IH (0 + monthlyEquivalent s)%Q). lra.
Qed.

Lemma multiplier_pos (f : Frequency) : (0 < multiplier f)%Q.
Proof. destruct f; reflexivity. Qed.

(** The burn rate adds up over a list split in two, and is not negative
    when no subscription amount is. *)
Theorem burnRate_additive (l1 l2 : list RecurringTransaction) :
  calculateSubscriptionBurnRate (identifySubscriptions (l1 ++ l2))
  == calculateSubscriptionBurnRate (identifySubscriptions l1)
     + calculateSubscriptionBurnRate (identifySubscriptions l2) /\
  ((forall rt, In rt l1 -> (0 <= amount rt)%Q) ->
   (0 <= calculateSubscriptionBurnRate (identifySubscriptions l1))%Q).
Proof.
  split.
  - unfold identifySubscriptions. rewrite filter_app, map_app.
    unfold calculateSubscriptionBurnRate at 1. rewrite fold_left_app.
    rewrite burnRate_acc. reflexivity.
  - induction l1 as [|rt r IH]; intros H.
    + unfold calculateSubscriptionBurnRate. simpl. lra.
    + assert (IH' : (0 <= calculateSubscriptionBurnRate (identifySubscriptions r))%Q)
        by (apply IH; intros; apply H; now right).
      unfold identifySubscriptions in *. cbn [filter].
      destruct (negb (isHousing rt)); [|exact IH'].
      cbn [map]. unfold calculateSubscriptionBurnRate at 1. cbn [fold_left].
      rewrite burnRate_acc. cbn [monthlyEquivalent]. unfold calculateMonthlyEquivalent in *.
      assert (0 <= amount rt)%Q by (apply H; now left).
      pose proof (multiplier_pos (frequency rt)).
      assert (0 <= amount rt * multiplier (frequency rt))%Q
        by (apply Qmult_le_0_compat; lra).
      lra.
Qed.

Lemma burnRate_additive_witness :
  (0 <= calculateSubscriptionBurnRate
          (identifySubscriptions
             (detectRecurringTransactions Sample.now Sample.gym 3 [])))%Q.
Proof.
  destruct (burnRate_additive (detectRecurringTransactions Sample.now Sample.gym 3 []) [])
    as [_ H].
  apply H. intros rt Hrt. vm_compute in Hrt. destruct Hrt as [<-|[]].
  vm_compute. discriminate.
Defined.

(** ** The lowest point of a forecast *)

Lemma fold_lowest (rest before after : list LiquidityForecast) (acc : LiquidityForecast) :
  (forall q, In q before -> (projectedBalance acc < projectedBalance q)%Q) ->
  (forall q, In q after -> (projectedBalance acc <= projectedBalance q)%Q) ->
  exists before' after',
    before ++ acc :: after ++ rest
    = before' ++
      fold_left (fun lowest current =>
                   if Qlt_bool (projectedBalance current) (projectedBalance lowest)
                   then current else lowest) rest acc
      :: after' /\
    (forall q, In q before' ->
       (projectedBalance (fold_left (fun lowest current =>
                   if Qlt_bool (projectedBalance current) (projectedBalance lowest)
                   then current else lowest) rest acc) < projectedBalance q)%Q) /\
    (forall q, In q after' ->
       (projectedBalance (fold_left (fun lowest current =>
                   if Qlt_bool (projectedBalance current) (projectedBalance lowest)
                   then current else lowest) rest acc) <= projectedBalance q)%Q).
Proof.
  revert before after acc. induction rest as [|c rest IH]; intros before after acc Hb Ha.
  - exists before, after. rewrite app_nil_r. auto.
  - cbn [fold_left].
    destruct (Qlt_bool (projectedBalance c) (projectedBalance acc)) eqn:E;
      unfold Qlt_bool in E.
    + apply negb_true_iff in E.
      assert (Hlt : (projectedBalance c < projectedBalance acc)%Q).
      { destruct (Qlt_le_dec (projectedBalance c) (projectedBalance acc)) as [?|Hle]; auto.
        apply Qle_bool_iff in Hle. congruence. }
      destruct (IH (before ++ acc :: after) [] c) as (b' & a' & H1 & H2 & H3).
      { intros q Hq. apply in_app_or in Hq as [Hq|[<-|Hq]]; auto.
        - specialize (Hb q Hq). lra.
        - specialize (Ha q Hq). lra. }
      { intros q []. }
      exists b', a'. rewrite <- app_assoc in H1. cbn [app] in H1.
      repeat split; assumption.
    + apply negb_false_iff, Qle_bool_iff in E.
      destruct (IH before (after ++ [c]) acc) as (b' & a' & H1 & H2 & H3); auto.
      { intros q Hq. apply in_app_or in Hq as [Hq|[<-|[]]]; auto. }
      exists b', a'. rewrite <- app_assoc in H1. cbn [app] in H1.
      repeat split; assumption.
Qed.

(** [findLowestLiquidityPoint] answers nothing for an empty forecast, and
    otherwise the first point of least balance: a point of the forecast,
    strictly below every point before it and at most equal to every point
    after it. *)
Theorem findLowestLiquidityPoint_spec (forecast : list LiquidityForecast) :
  (forecast = [] -> findLowestLiquidityPoint forecast = None) /\
  (forecast <> [] ->
   exists before lowest after,
     findLowestLiquidityPoint forecast = Some lowest /\
     forecast = before ++ lowest :: after /\
     (forall q, In q before -> (projectedBalance lowest < projectedBalance q)%Q) /\
     (forall q, In q after -> (projectedBalance lowest <= projectedBalance q)%Q)).
Proof.
  split; [intros ->; reflexivity|].
  destruct forecast as [|first rest]; [congruence|]. intros _.
  destruct (fold_lowest rest [] [] first) as (b' & a' & H1 & H2 & H3);
    try (intros q []).
  eexists b', _, a'. split; [reflexivity|]. auto.
Qed.

(** On the forecast of the example the lowest point is the day of the last
    charge, 2024-03-31, with 700. *)
Lemma findLowestLiquidityPoint_spec_witness :
  exists forecast lowest,
    projectLiquidity 4 1000 [] [Sample.monthly100] 90 (isoDate 2024 1 15) = Some forecast /\
    findLowestLiquidityPoint forecast = Some lowest /\
    date lowest = (2024, 3, 31) /\ projectedBalance lowest == 700.
Proof.
  destruct (projectLiquidity 4 1000 [] [Sample.monthly100] 90 (isoDate 2024 1 15))
    as [forecast|] eqn:E; [|vm_compute in E; discriminate].
  destruct (findLowestLiquidityPoint_spec forecast) as [_ H].
  destruct H as (before & lowest & after & Hl & _).
  - vm_compute in E. injection E as <-. discriminate.
  - exists forecast, lowest. split; [reflexivity|]. split; [exact Hl|].
    vm_compute in E. injection E as <-. vm_compute in Hl. injection Hl as <-.
    split; reflexivity.
Defined.

(** ** The events of a day *)

Lemma DateKey_eqb_spec (a b : DateKey) : DateKey_eqb a b = true <-> a = b.
Proof.
  destruct a as [[y1 m1] d1], b as [[y2 m2] d2]. unfold DateKey_eqb.
  rewrite !andb_true_iff, !Z.eqb_eq. split.
  - intros [[-> ->] ->]. reflexivity.
  - intros H. injection H as -> -> ->. auto.
Qed.

Lemma DateKey_eqb_neq (a b : DateKey) : a <> b -> DateKey_eqb a b = false.
Proof.
  intros H. destruct (DateKey_eqb a b) eqn:E; [|reflexivity].
  apply DateKey_eqb_spec in E. contradiction.
Qed.

(** Pushing an event under a date key appends it to the events of that
    date, whether the key was there or not, and leaves every other date as
    it was. *)
Theorem pushEvent_eventsOn (key : DateKey) (ev : Event) (events : Events) :
  eventsOn key (pushEvent key ev events) = eventsOn key events ++ [ev] /\
  forall other, other <> key ->
    eventsOn other (pushEvent key ev events) = eventsOn other events.
Proof.
  induction events as [|[k evs] rest [IH1 IH2]]; simpl.
  - assert (E : DateKey_eqb key key = true) by now apply DateKey_eqb_spec.
    rewrite E. split; [reflexivity|].
    intros other Hne. now rewrite (DateKey_eqb_neq key other) by congruence.
  - destruct (DateKey_eqb k key) eqn:E; simpl.
    + rewrite E. split; [reflexivity|].
      apply DateKey_eqb_spec in E. subst k.
      intros other Hne. now rewrite (DateKey_eqb_neq key other) by congruence.
    + rewrite E. split; [exact IH1|].
      intros other Hne. destruct (DateKey_eqb k other); auto.
Qed.

Lemma pushEvent_eventsOn_witness :
  eventsOn (2024, 1, 31)
    (pushEvent (2024, 1, 31) {| ev_type := expense; ev_description := "a"; ev_amount := 1 |}
       [((2024, 1, 31), [{| ev_type := income; ev_description := "b"; ev_amount := 2 |}])])
  = [{| ev_type := income; ev_description := "b"; ev_amount := 2 |};
     {| ev_type := expense; ev_description := "a"; ev_amount := 1 |}] /\
  eventsOn (2024, 2, 1)
    (pushEvent (2024, 1, 31) {| ev_type := expense; ev_description := "a"; ev_amount := 1 |}
       [((2024, 1, 31), [{| ev_type := income; ev_description := "b"; ev_amount := 2 |}])])
  = [].
Proof.
  destruct (pushEvent_eventsOn (2024, 1, 31)
              {| ev_type := expense; ev_description := "a"; ev_amount := 1 |}
              [((2024, 1, 31),
                [{| ev_type := income; ev_description := "b"; ev_amount := 2 |}])])
    as [H1 H2].
  split; [exact H1|]. apply (H2 (2024, 2, 1)). discriminate.
Defined.

(** ** The forecast *)


Lemma buildForecast_length (startDate : instant) (events : Events) (days : list Z)
    (balance : Q) :
  List.length (buildForecast startDate events days balance) = List.length days.
Proof.
  revert balance. induction days as [|day rest IH]; intros balance; simpl; auto.
Qed.






(** With no recurring entry the forecast is flat: every point keeps the
    starting balance and shows no event, and no fuel is needed. *)
Theorem projectLiquidity_without_entries (fuel : nat) (currentBalance : Q)
    (daysToProject : Z) (startDate : instant) :
  exists forecast,
    projectLiquidity fuel currentBalance [] [] daysToProject startDate = Some forecast /\
    List.length forecast = Z.to_nat (daysToProject + 1) /\
    forall p, In p forecast -> projectedBalance p = currentBalance /\ event p = None.
Proof.
  eexists. split; [reflexivity|]. split.
  - rewrite buildForecast_length. unfold dayOffsets. now rewrite length_map, length_seq.
  - generalize (dayOffsets daysToProject) as days.
    induction days as [|day rest IH]; intros p Hp; [contradiction|].
    destruct Hp as [<-|Hp]; [split; reflexivity|]. now apply IH.
Qed.

(** ** Termination of the interval projection *)

Lemma differenceInDays_beyond (a b : instant) (days : Z) :
  (days + 1) * msPerDay <= a - b -> days < differenceInDays a b.
Proof.
  intros H. unfold differenceInDays.
  assert (Hq : ((days + 1) * msPerDay) ÷ msPerDay <= (a - b) ÷ msPerDay).
  { apply Z.quot_le_mono; [reflexivity|exact H]. }
  rewrite Z.quot_mul in Hq by discriminate. lia.
Qed.

Lemma projectInterval_enough_fuel (fuel : nat) (startDate : instant) (daysToProject : Z)
    (interval : Z) (ev : Event) (nextDate : instant) (events : Events) :
  1 <= interval ->
  (daysToProject + 1) * msPerDay - (nextDate - startDate) <= Z.of_nat fuel * msPerDay ->
  exists events', projectInterval fuel startDate daysToProject interval ev nextDate events
                  = Some events'.
Proof.
  intros Hi. revert nextDate events. pose proof msPerDay_pos as Hms.
  induction fuel as [|fuel IH]; intros nextDate events Hf; cbn [projectInterval];
    destruct (differenceInDays nextDate startDate <=? daysToProject) eqn:E; eauto.
  - apply Z.leb_le in E.
    assert (days_lt : daysToProject < differenceInDays nextDate startDate).
    { apply differenceInDays_beyond. simpl in Hf. lia. }
    lia.
  - apply IH. unfold addDays. nia.
Qed.

Lemma projectEntries_enough_fuel (startDate : instant) (daysToProject : Z)
    (kind : EventType) (entries : list RecurringTransaction) :
  (forall e, In e entries -> truthyOptString (ruleId e) = false /\ 1 <= intervalDays e) ->
  exists bound, forall fuel, (bound <= fuel)%nat -> forall events,
    exists events', projectEntries fuel startDate daysToProject kind entries events
                    = Some events'.
Proof.
  induction entries as [|entry rest IH]; intros H.
  - exists 0%nat. simpl. eauto.
  - destruct IH as [bound IH]; [intros; apply H; now right|].
    destruct (H entry (or_introl eq_refl)) as [Hrule Hint].
    exists (Nat.max bound
              (Z.to_nat (daysToProject + 1
                         - (addDays (lastCharged entry) (intervalDays entry) - startDate)
                           / msPerDay + 1))).
    intros fuel Hfuel events. cbn [projectEntries]. unfold projectEntry. rewrite Hrule.
    destruct (projectInterval_enough_fuel fuel startDate daysToProject (intervalDays entry)
                {| ev_type := kind; ev_description := description entry;
                   ev_amount := amount entry |}
                (addDays (lastCharged entry) (intervalDays entry)) events Hint)
      as [events' ->].
    + pose proof msPerDay_pos as Hms.
      set (x := addDays (lastCharged entry) (intervalDays entry) - startDate) in *.
      pose proof (Z.mul_div_le x msPerDay Hms).
      pose proof (Z.mul_succ_div_gt x msPerDay Hms).
      destruct (Z_lt_le_dec (daysToProject + 1 - x / msPerDay + 1) 0); nia.
    + apply IH. lia.
Qed.

(** [projectLiquidity] returns a forecast, given fuel enough, whenever
    every recurring entry is an automatic one (no rule identifier) with an
    interval of at least one day; in particular on what
    [detectRecurringTransactions] detects without manual rules. *)
Theorem projectLiquidity_returns (now : instant) (credits debits : list Transaction)
    (minOccurrences : Z) (currentBalance : Q) (daysToProject : Z) (startDate : instant) :
  (forall incomes expenses,
      (forall e, In e (incomes ++ expenses) ->
         truthyOptString (ruleId e) = false /\ 1 <= intervalDays e) ->
      exists fuel forecast,
        projectLiquidity fuel currentBalance incomes expenses daysToProject startDate
        = Some forecast) /\
  exists fuel forecast,
    projectLiquidity fuel currentBalance
      (detectRecurringTransactions now credits minOccurrences [])
      (detectRecurringTransactions now debits minOccurrences [])
      daysToProject startDate = Some forecast.
Proof.
  assert (General : forall incomes expenses,
      (forall e, In e (incomes ++ expenses) ->
         truthyOptString (ruleId e) = false /\ 1 <= intervalDays e) ->
      exists fuel forecast,
        projectLiquidity fuel currentBalance incomes expenses daysToProject startDate
        = Some forecast).
  { intros incomes expenses H.
    destruct (projectEntries_enough_fuel startDate daysToProject income incomes)
      as [b1 H1]; [intros; apply H; apply in_or_app; now left|].
    destruct (projectEntries_enough_fuel startDate daysToProject expense expenses)
      as [b2 H2]; [intros; apply H; apply in_or_app; now right|].
    destruct (H1 (Nat.max b1 b2) (Nat.le_max_l b1 b2) []) as [events0 E0].
    destruct (H2 (Nat.max b1 b2) (Nat.le_max_r b1 b2) events0) as [events E].
    exists (Nat.max b1 b2). eexists. unfold projectLiquidity. rewrite E0, E. reflexivity. }
  split; [exact General|].
  apply General. intros e He.
  assert (Hauto : forall txs, In e (detectRecurringTransactions now txs minOccurrences []) ->
                    truthyOptString (ruleId e) = false /\ 1 <= intervalDays e).
  { intros txs Hin. apply detectRecurringTransactions_In in Hin. cbv zeta in Hin.
    destruct Hin as [[[] _]|Hin].
    apply automatic_entry in Hin as (txns & Ha & _). invert_analyzeGroup Ha.
    split; [reflexivity|]. simpl. apply Math_round_ge_1.
    now apply (consistent_mean_ge_1 (intervalsOf txns)). }
  apply in_app_or in He as [He|He]; eapply Hauto; eassumption.
Qed.

Lemma projectLiquidity_returns_witness :
  exists fuel forecast,
    projectLiquidity fuel 1000 [] [Sample.monthly100] 90 (isoDate 2024 1 15) = Some forecast.
Proof.
  destruct (projectLiquidity_returns Sample.now [] [] 2 1000 90 (isoDate 2024 1 15))
    as [H _].
  apply H. intros e [<-|[]]. split; [reflexivity|]. simpl. lia.
Defined.

(** ** More on safe to spend *)

Lemma nextOccurrenceFrom_not_before (fuel : nat) (now : instant) (interval : Z)
    (d r : instant) :
  nextOccurrenceFrom fuel now interval d = Some r -> now <= r.
Proof.
  revert d. induction fuel as [|fuel IH]; intros d H; cbn [nextOccurrenceFrom] in H;
    unfold isBefore in H; destruct (d <? now) eqn:E; try discriminate;
    try (injection H as <-; apply Z.ltb_ge in E; exact E).
  now apply IH in H.
Qed.

(** The loop that looks for the next occurrence returns the first date of
    the schedule [d], [d + interval], [d + 2 interval], ... that is not
    before [now]. *)
Theorem nextOccurrenceFrom_spec (fuel : nat) (now : instant) (interval : Z)
    (d r : instant) :
  nextOccurrenceFrom fuel now interval d = Some r ->
  exists k : nat,
    r = addDays d (interval * Z.of_nat k) /\
    now <= r /\
    forall j : nat, (j < k)%nat -> addDays d (interval * Z.of_nat j) < now.
Proof.
  revert d. induction fuel as [|fuel IH]; intros d H; cbn [nextOccurrenceFrom] in H;
    unfold isBefore in H; destruct (d <? now) eqn:E; try discriminate.
  - injection H as <-. apply Z.ltb_ge in E. exists 0%nat. unfold addDays.
    repeat split; try lia; intros j Hj; lia.
  - apply IH in H as (k & -> & Hr & Hbefore). apply Z.ltb_lt in E.
    exists (S k). unfold addDays in *. split; [lia|]. split; [lia|].
    intros [|j] Hj; [lia|].
    specialize (Hbefore j ltac:(lia)). lia.
  - injection H as <-. apply Z.ltb_ge in E. exists 0%nat. unfold addDays.
    repeat split; try lia; intros j Hj; lia.
Qed.

(** From 2023-12-01 by steps of 31 days, the first date not before noon of
    2024-02-20 is 2024-03-03. *)
Lemma nextOccurrenceFrom_spec_witness :
  exists k : nat,
    isoDate 2024 3 3 = addDays (isoDate 2023 12 1) (31 * Z.of_nat k) /\
    Sample.now <= isoDate 2024 3 3.
Proof.
  destruct (nextOccurrenceFrom_spec 5 Sample.now 31 (isoDate 2023 12 1) (isoDate 2024 3 3))
    as (k & H1 & H2 & _); [reflexivity|].
  exists k. split; assumption.
Defined.

Lemma reserveBills_bounds (fuel : nat) (now nextPaydayDate : instant)
    (recurringExpenses : list RecurringTransaction) (reserved r : Q) :
  (forall e, In e recurringExpenses -> (0 <= amount e)%Q) ->
  reserveBills fuel now nextPaydayDate recurringExpenses reserved = Some r ->
  (reserved <= r /\ r <= reserved + Qsum (map amount recurringExpenses))%Q.
Proof.
  revert reserved. induction recurringExpenses as [|bill rest IH]; intros reserved Hpos H.
  - injection H as <-. unfold Qsum. simpl. lra.
  - cbn [reserveBills] in H.
    destruct (nextOccurrenceFrom _ _ _ _); [|discriminate].
    assert (Hb : (0 <= amount bill)%Q) by (apply Hpos; now left).
    apply IH in H; [|intros; apply Hpos; now right].
    cbn [map]. unfold Qsum at 1. cbn [fold_left]. rewrite Qsum_acc.
    destruct (negb _); lra.
Qed.

(** Every result of [calculateSafeToSpend] has a next payday that is not
    before now, so that [daysUntilPayday] is the plain day difference (the
    clamp at zero never acts); when something is safe to spend, the three
    parts (safe to spend, reserved, buffer) add up to the balance; and with
    amounts that are magnitudes the reserved sum lies between zero and the
    total of the detected expenses. *)
Theorem safeToSpend_parts (fuel : nat) (now : instant) (currentBalance : Q)
    (transactions : list Transaction) (manualRules : list ManualRecurringRule)
    (buffer : Q) (d : SafeToSpendDetails) :
  calculateSafeToSpend fuel now currentBalance transactions manualRules buffer = Some d ->
  now <= nextPayday d /\
  daysUntilPayday d = differenceInDays (nextPayday d) now /\
  totalBalance d = currentBalance /\ sts_buffer d = buffer /\
  ((0 < safeToSpend d)%Q ->
   safeToSpend d + reservedForBills d + sts_buffer d == totalBalance d) /\
  ((forall t, In t transactions -> (0 <= tx_amount t)%Q) ->
   (forall rule q, In rule manualRules -> expectedAmount rule = Some q -> (0 <= q)%Q) ->
   (0 <= reservedForBills d /\
    reservedForBills d
    <= Qsum (map amount
               (detectRecurringTransactions now (filter isDebit transactions) 2
                  manualRules)))%Q).
Proof.
  unfold calculateSafeToSpend. intros H.
  destruct (nextPaydayOf _ _ _) as [p|] eqn:Hp; [|discriminate].
  destruct (reserveBills _ _ _ _ _) as [r|] eqn:Hr; [|discriminate].
  injection H as <-. cbn [nextPayday daysUntilPayday totalBalance sts_buffer safeToSpend
                          reservedForBills].
  assert (Hnow : now <= p).
  { unfold nextPaydayOf in Hp. destruct (hd_error _) as [m|].
    - now apply nextOccurrenceFrom_not_before in Hp.
    - injection Hp as <-. unfold addDays. pose proof msPerDay_pos. lia. }
  split; [exact Hnow|]. split.
  - apply Z.max_r. unfold differenceInDays. apply Z.quot_pos; [lia|reflexivity].
  - split; [reflexivity|]. split; [reflexivity|]. split.
    + intros Hpos.
      destruct (Q.max_spec 0 (currentBalance - r - buffer)) as [[_ E]|[Hle E]];
        rewrite E in *; lra.
    + intros Htx Hrules.
      apply reserveBills_bounds in Hr.
      * rewrite Qplus_0_l in Hr. exact Hr.
      * intros e He. apply (detect_amounts_nonneg now (filter isDebit transactions) 2
                              manualRules); auto.
        intros t Ht. apply filter_In in Ht as [Ht _]. auto.
Qed.

Lemma safeToSpend_parts_witness :
  exists d,
    calculateSafeToSpend 40 Sample.now 2000 Sample.rent [] 500 = Some d /\
    safeToSpend d + reservedForBills d + sts_buffer d == 2000.
Proof.
  destruct (calculateSafeToSpend 40 Sample.now 2000 Sample.rent [] 500) as [d|] eqn:E;
    [|vm_compute in E; discriminate].
  exists d. split; [reflexivity|].
  destruct (safeToSpend_parts _ _ _ _ _ _ _ E) as (_ & _ & Ht & _ & H & _).
  rewrite <- Ht. apply H.
  vm_compute in E. injection E as <-. reflexivity.
Defined.

(** ** The debug view and the detector *)

Lemma remainingTransactions_no_manual (transactions : list Transaction) :
  remainingTransactions [] transactions = transactions.
Proof. unfold remainingTransactions. simpl. apply filter_all. auto. Qed.

Lemma detect_without_rules_In (now : instant) (transactions : list Transaction)
    (minOccurrences : Z) (e : RecurringTransaction) :
  In e (detectRecurringTransactions now transactions minOccurrences []) <->
  exists k txns,
    In (k, txns) (descriptionGroups (stableSort byDate transactions)) /\
    analyzeGroup now minOccurrences txns = Some e.
Proof.
  rewrite detectRecurringTransactions_In. cbv zeta.
  change (detectManualRecurringTransactions now transactions []) with (@nil RecurringTransaction).
  rewrite remainingTransactions_no_manual, automaticResults_In. split.
  - intros [[[] _]|([k txns] & H1 & H2)]. eauto.
  - intros (k & txns & H1 & H2). right. exists (k, txns). auto.
Qed.

Lemma debugRecurringDetection_In (now : instant) (transactions : list Transaction)
    (minOccurrences : Z) (g : DebugGroup) :
  In g (debugRecurringDetection now transactions minOccurrences) <->
  exists k txns,
    In (k, txns) (descriptionGroups (stableSort byDate transactions)) /\
    debugGroup now minOccurrences (k, txns) = Some g.
Proof.
  unfold debugRecurringDetection. cbv zeta. rewrite stableSort_In, in_flat_map. split.
  - intros ([k txns] & H1 & H2).
    destruct (debugGroup now minOccurrences (k, txns)) eqn:E; simpl in H2; [|contradiction].
    destruct H2 as [<-|[]]. eauto.
  - intros (k & txns & H1 & H2). exists (k, txns). split; auto. rewrite H2. now left.
Qed.

Lemma consistent_sorted_mean_positive (intervals : list Z) (avg : Q) :
  intervals <> [] ->
  (forall i, In i intervals -> 0 <= i) ->
  avg = (inject_Z (Zsum intervals) / inject_Z (Z.of_nat (List.length intervals)))%Q ->
  isConsistent (varianceOf intervals (Fin avg)) = true ->
  (0 < avg)%Q.
Proof.
  intros Hne Hpos Havg Hc.
  assert (Hlen : (0 < inject_Z (Z.of_nat (List.length intervals)))%Q).
  { change 0%Q with (inject_Z 0). rewrite <- Zlt_Qlt.
    destruct intervals; [congruence|simpl; lia]. }
  assert (Hsum : 0 <= Zsum intervals).
  { clear - Hpos. induction intervals as [|x r IH]; [reflexivity|].
    unfold Zsum. cbn [fold_left]. rewrite Zsum_acc.
    assert (0 <= x) by (apply Hpos; now left).
    assert (0 <= Zsum r) by (apply IH; intros; apply Hpos; now right). lia. }
  assert (Hge : (0 <= avg)%Q).
  { rewrite Havg. apply Qdiv_nonneg; [|lra].
    change 0%Q with (inject_Z 0). now rewrite <- Zle_Qle. }
  destruct (Qlt_le_dec 0 avg) as [?|Hle]; auto. exfalso.
  assert (Hz : avg == 0) by lra.
  destruct intervals as [|i r]; [congruence|].
  unfold isConsistent, varianceOf in Hc. cbn [map forallb] in Hc.
  apply andb_true_iff in Hc as [Hc _].
  destruct (zero_mean_deviation avg i Hz) as [E|E]; cbv zeta in E; rewrite E in Hc;
    discriminate.
Qed.

Lemma debug_agrees_on_group (now : instant) (minOccurrences : Z) (k : string)
    (txns : list Transaction) (g : DebugGroup) :
  StronglySorted (fun a b => byDate a b = true) txns ->
  (2 <= List.length txns)%nat ->
  debugGroup now minOccurrences (k, txns) = Some g ->
  dg_transactions g = txns /\
  (dg_reason g = DetectedAsRecurring <->
   exists e, analyzeGroup now minOccurrences txns = Some e).
Proof.
  intros Hsorted Hlen Hg. unfold debugGroup in Hg. cbv zeta in Hg. cbn [fst snd] in Hg.
  destruct txns as [|first rest]; [discriminate|].
  remember (first :: rest) as txns eqn:Etx.
  destruct (lastOf txns) as [lastTransaction|] eqn:Hlast; [|discriminate].
  injection Hg as <-. cbn [dg_transactions dg_reason]. split; [reflexivity|].
  assert (Hne : intervalsOf txns <> []).
  { intros E. apply (f_equal (@List.length Z)) in E.
    rewrite intervalsOf_length in E. simpl in E. lia. }
  assert (Hpos : (0 <? List.length (intervalsOf txns))%nat = true).
  { apply Nat.ltb_lt. destruct (intervalsOf txns); [congruence|simpl; lia]. }
  rewrite Hpos.
  set (avg := (inject_Z (Zsum (intervalsOf txns))
               / inject_Z (Z.of_nat (List.length (intervalsOf txns))))%Q).
  assert (Havg : avgIntervalOf (intervalsOf txns) = Fin avg).
  { destruct (avgIntervalOf_finite_or_NaN (intervalsOf txns)) as [[q Hq]|[F _]];
      [|contradiction].
    rewrite Hq. f_equal. now destruct (avgIntervalOf_Fin _ _ Hq) as [_ ->]. }
  unfold analyzeGroup. rewrite Havg, Hlast.
  destruct (Z.of_nat (List.length txns) <? minOccurrences).
  { split; [discriminate|intros [e F]; discriminate]. }
  cbv zeta.
  destruct (isConsistent (varianceOf (intervalsOf txns) (Fin avg))) eqn:Hc; cbn [negb andb].
  2:{ split; [discriminate|intros [e F]; discriminate]. }
  assert (Hgt : ngt (Fin avg) 0 = true).
  { unfold ngt. apply negb_true_iff.
    destruct (Qle_bool avg 0) eqn:E; [|reflexivity]. apply Qle_bool_iff in E.
    pose proof (consistent_sorted_mean_positive (intervalsOf txns) avg Hne
                  (sorted_intervals_nonneg txns Hsorted) eq_refl Hc). lra. }
  rewrite Hgt.
  destruct (Qlt_bool (avg * 2) _).
  - split; [discriminate|intros [e F]; discriminate].
  - split; [eauto|reflexivity].
Qed.

Lemma debugGroup_detected_count (now : instant) (minOccurrences : Z) (k : string)
    (txns : list Transaction) (g : DebugGroup) :
  debugGroup now minOccurrences (k, txns) = Some g ->
  dg_reason g = DetectedAsRecurring ->
  minOccurrences <= Z.of_nat (List.length txns).
Proof.
  intros Hg Hr. unfold debugGroup in Hg. cbv zeta in Hg. cbn [fst snd] in Hg.
  destruct txns as [|first rest]; [discriminate|].
  remember (first :: rest) as txns eqn:Etx.
  destruct (lastOf txns); [|discriminate].
  injection Hg as <-. cbn [dg_reason] in Hr.
  destruct (Z.of_nat (List.length txns) <? minOccurrences) eqn:E; [discriminate|].
  now apply Z.ltb_ge in E.
Qed.

(** With a threshold of at least 2 and no manual rule, the debug view and
    the detector agree: a group is reported as detected exactly when the
    detector emits an entry for its transactions. *)
Theorem debug_view_agrees_with_detector (now : instant) (transactions : list Transaction)
    (minOccurrences : Z) :
  2 <= minOccurrences ->
  (forall g, In g (debugRecurringDetection now transactions minOccurrences) ->
     dg_reason g = DetectedAsRecurring ->
     exists e, In e (detectRecurringTransactions now transactions minOccurrences []) /\
               transactionIds e = map tx_id (dg_transactions g)) /\
  (forall e, In e (detectRecurringTransactions now transactions minOccurrences []) ->
     exists g, In g (debugRecurringDetection now transactions minOccurrences) /\
               dg_reason g = DetectedAsRecurring /\
               transactionIds e = map tx_id (dg_transactions g)).
Proof.
  intros Hmin.
  assert (Hsorted : forall k txns,
            In (k, txns) (descriptionGroups (stableSort byDate transactions)) ->
            StronglySorted (fun a b => byDate a b = true) txns).
  { intros k txns Hin.
    destruct (descriptionGroups_filter (stableSort byDate transactions)) as (_ & H & _).
    destruct (H _ _ Hin) as [_ ->]. apply StronglySorted_filter.
    apply stableSort_StronglySorted; [apply byDate_total|apply byDate_trans]. }
  split.
  - intros g Hg Hreason.
    apply debugRecurringDetection_In in Hg as (k & txns & Hin & Hd).
    assert (Hlen : (2 <= List.length txns)%nat).
    { pose proof (debugGroup_detected_count _ _ _ _ _ Hd Hreason). lia. }
    destruct (debug_agrees_on_group now minOccurrences k txns g (Hsorted _ _ Hin) Hlen Hd)
      as [Htx [Hdet _]].
    destruct (Hdet Hreason) as [e He]. exists e. split.
    + apply detect_without_rules_In. eauto.
    + rewrite Htx. invert_analyzeGroup He. reflexivity.
  - intros e He. apply detect_without_rules_In in He as (k & txns & Hin & Ha).
    assert (Hlen : (2 <= List.length txns)%nat).
    { pose proof Ha as Ha'. invert_analyzeGroup Ha'. lia. }
    destruct (debugGroup now minOccurrences (k, txns)) as [g|] eqn:Hd.
    + destruct (debug_agrees_on_group now minOccurrences k txns g (Hsorted _ _ Hin) Hlen Hd)
        as [Htx [_ Hdet]].
      exists g. split; [apply debugRecurringDetection_In; eauto|].
      split; [apply Hdet; eauto|].
      rewrite Htx. invert_analyzeGroup Ha. reflexivity.
    + exfalso. unfold debugGroup in Hd. cbv zeta in Hd. cbn [fst snd] in Hd.
      destruct txns as [|first rest]; [simpl in Hlen; lia|].
      destruct (lastOf_nonempty (first :: rest)) as [x Hx]; [discriminate|].
      rewrite Hx in Hd. discriminate.
Qed.

Lemma debug_view_agrees_with_detector_witness :
  exists g, In g (debugRecurringDetection Sample.now Sample.gym 3) /\
            dg_reason g = DetectedAsRecurring /\
            map tx_id (dg_transactions g) = ["g1"; "g2"; "g3"]%string.
Proof.
  destruct (debug_view_agrees_with_detector Sample.now Sample.gym 3 ltac:(lia)) as [_ H].
  destruct (H (hd Sample.monthly100 (detectRecurringTransactions Sample.now Sample.gym 3 [])))
    as (g & H1 & H2 & H3).
  - vm_compute. left. reflexivity.
  - exists g. repeat split; auto.
Defined.

(** ** Category overrides and rules *)

Lemma find_filter_other (id other : string) (prev : list CategoryOverride) :
  other <> id ->
  find (fun o => String.eqb (co_transactionId o) other)
       (filter (fun o => negb (String.eqb (co_transactionId o) id)) prev)
  = find (fun o => String.eqb (co_transactionId o) other) prev.
Proof.
  intros Hne. induction prev as [|o r IH]; simpl; auto.
  destruct (String.eqb (co_transactionId o) id) eqn:E; simpl.
  - apply String.eqb_eq in E.
    assert (E' : String.eqb (co_transactionId o) other = false)
      by (apply String.eqb_neq; congruence).
    now rewrite E'.
  - destruct (String.eqb (co_transactionId o) other); auto.
Qed.

Lemma find_filter_same (id : string) (prev : list CategoryOverride) :
  find (fun o => String.eqb (co_transactionId o) id)
       (filter (fun o => negb (String.eqb (co_transactionId o) id)) prev) = None.
Proof.
  induction prev as [|o r IH]; simpl; auto.
  destruct (String.eqb (co_transactionId o) id) eqn:E; simpl; auto. now rewrite E.
Qed.

Lemma find_app_none {A : Type} (p : A -> bool) (l l' : list A) :
  find p l = None -> find p (l ++ l') = find p l'.
Proof.
  induction l as [|a r IH]; simpl; auto. destruct (p a); [discriminate|auto].
Qed.

Lemma find_app_some {A : Type} (p : A -> bool) (l l' : list A) (x : A) :
  find p l = Some x -> find p (l ++ l') = Some x.
Proof.
  induction l as [|a r IH]; simpl; [discriminate|]. destruct (p a); auto.
Qed.

(** After [addOverride] for a transaction, the effective category of that
    transaction is the new one whatever the rules say, the effective
    category of every other transaction is what it was, and the transaction
    has exactly one override. *)
Theorem addOverride_effective (rules : list CategoryRule)
    (overrides : list CategoryOverride) (t : Transaction) (c : string) :
  let overrides' := addOverride (tx_id t) c overrides in
  getEffectiveCategory rules overrides' t = c /\
  (forall t', tx_id t' <> tx_id t ->
     getEffectiveCategory rules overrides' t' = getEffectiveCategory rules overrides t') /\
  List.length (filter (fun o => String.eqb (co_transactionId o) (tx_id t)) overrides') = 1%nat.
Proof.
  cbv zeta. unfold addOverride, getEffectiveCategory. split; [|split].
  - rewrite (find_app_none _ _ _ (find_filter_same (tx_id t) overrides)).
    simpl. now rewrite String.eqb_refl.
  - intros t' Hne.
    destruct (find (fun o => String.eqb (co_transactionId o) (tx_id t')) overrides)
      as [o|] eqn:E.
    + rewrite <- (find_filter_other (tx_id t) (tx_id t') overrides Hne) in E.
      now rewrite (find_app_some _ _ _ _ E).
    + rewrite <- (find_filter_other (tx_id t) (tx_id t') overrides Hne) in E.
      rewrite (find_app_none _ _ _ E). simpl.
      assert (E' : String.eqb (tx_id t) (tx_id t') = false)
        by (apply String.eqb_neq; congruence).
      now rewrite E'.
  - rewrite filter_app. simpl. rewrite String.eqb_refl, length_app. simpl.
    rewrite filter_none; [reflexivity|].
    intros o Ho. apply filter_In in Ho as [_ Ho]. now apply negb_true_iff in Ho.
Qed.





(** Reclassifying keeps the transactions, in order, with all their fields
    but the category, and reclassifying twice changes nothing more. *)
Theorem reclassifyTransactions_idempotent (rules : list CategoryRule)
    (overrides : list CategoryOverride) (transactions : list Transaction) :
  reclassifyTransactions rules overrides (reclassifyTransactions rules overrides transactions)
  = reclassifyTransactions rules overrides transactions /\
  map (fun t => (tx_id t, tradeDate t, tx_description t, tx_amount t, tx_type t))
      (reclassifyTransactions rules overrides transactions)
  = map (fun t => (tx_id t, tradeDate t, tx_description t, tx_amount t, tx_type t))
        transactions.
Proof.
  unfold reclassifyTransactions. rewrite !map_map. split.
  - apply map_ext. intros t. unfold withCategory at 1 3. simpl. f_equal.
    unfold getEffectiveCategory, ruleApplies. simpl.
    destruct (find _ overrides); auto. destruct (find _ rules); auto.
  - apply map_ext. intros t. reflexivity.
Qed.

Lemma uniqueInOrder_spec (seen l : list string) :
  NoDup (uniqueInOrder seen l) /\
  forall x, In x (uniqueInOrder seen l) <-> In x l /\ ~ In x seen.
Proof.
  revert seen. induction l as [|a r IH]; intros seen; simpl.
  - split; [constructor|]. tauto.
  - destruct (existsb (String.eqb a) seen) eqn:E.
    + destruct (IH seen) as [H1 H2]. split; auto.
      apply existsb_exists in E as (y & Hy & E). apply String.eqb_eq in E. subst y.
      intros x. rewrite H2. split; [tauto|]. intros [[<-|H] Hn]; tauto.
    + destruct (IH (a :: seen)) as [H1 H2]. split.
      * constructor; auto. rewrite H2. simpl. tauto.
      * intros x. simpl. rewrite H2. simpl.
        assert (Hn : ~ In a seen).
        { intros Hin.
          assert (existsb (String.eqb a) seen = true); [|congruence].
          apply existsb_exists. exists a. split; auto. apply String.eqb_refl. }
        split.
        -- intros [<-|[H3 H4]]; tauto.
        -- intros [[<-|H3] H4]; [now left|].
           destruct (string_dec a x) as [->|Hne]; [now left|].
           right. split; auto. intros [F|F]; auto.
Qed.

(** Marking a category as an investment puts it in the list once, keeps
    the others and leaves no duplicate; unmarking it removes every
    occurrence and nothing else. *)
Theorem toggleInvestmentCategory_spec (category : string) (prev : list string) :
  (NoDup (toggleInvestmentCategory category true prev) /\
   forall x, In x (toggleInvestmentCategory category true prev)
             <-> In x prev \/ x = category) /\
  (forall x, In x (toggleInvestmentCategory category false prev)
             <-> In x prev /\ x <> category).
Proof.
  unfold toggleInvestmentCategory. split.
  - destruct (uniqueInOrder_spec [] (prev ++ [category])) as [H1 H2]. split; auto.
    intros x. rewrite H2, in_app_iff. simpl. intuition.
  - intros x. rewrite filter_In, negb_true_iff, String.eqb_neq. tauto.
Qed.

(** ** Switching a rule off *)

Lemma filter_enabled_toggle (id : string) (rules : list ManualRecurringRule) :
  (forall r, In r rules -> rule_id r = id -> enabled r = true) ->
  filter enabled (toggleRule id rules) = filter enabled (removeRule id rules).
Proof.
  unfold toggleRule, removeRule. induction rules as [|r rest IH]; intros H; simpl; auto.
  destruct (String.eqb (rule_id r) id) eqn:E; simpl.
  - apply String.eqb_eq in E. rewrite (H r (or_introl eq_refl) E). simpl.
    apply IH. intros; apply H; auto. now right.
  - destruct (enabled r); [f_equal|]; apply IH; intros; apply H; auto; now right.
Qed.

(** Switching an enabled rule off with [toggleRule] has the same effect on
    the detection as deleting it with [removeRule]; and toggling a rule
    twice gives the rules back. *)
Theorem toggled_off_rule_is_ignored (now : instant) (transactions : list Transaction)
    (minOccurrences : Z) (id : string) (rules : list ManualRecurringRule) :
  (forall r, In r rules -> rule_id r = id -> enabled r = true) ->
  detectRecurringTransactions now transactions minOccurrences (toggleRule id rules)
  = detectRecurringTransactions now transactions minOccurrences (removeRule id rules) /\
  toggleRule id (toggleRule id rules) = rules.
Proof.
  intros H. split.
  - unfold detectRecurringTransactions, detectManualRecurringTransactions.
    now rewrite (filter_enabled_toggle id rules H).
  - unfold toggleRule. rewrite map_map. rewrite <- (map_id rules) at 2.
    apply map_ext. intros r.
    destruct (String.eqb (rule_id r) id) eqn:E; simpl; [|now rewrite E].
    rewrite E. destruct r; simpl. now rewrite negb_involutive.
Qed.

Lemma toggled_off_rule_is_ignored_witness :
  detectRecurringTransactions Sample.now Sample.gym 3
    (toggleRule "rule-gym" [Sample.gymRule])
  = detectRecurringTransactions Sample.now Sample.gym 3 [].
Proof.
  destruct (toggled_off_rule_is_ignored Sample.now Sample.gym 3 "rule-gym" [Sample.gymRule])
    as [H _].
  - intros r [<-|[]] _. reflexivity.
  - exact H.
Defined.

(** ** The subscription audit *)

(** Every subscription of the audit is an automatic entry seen at least
    twice, with an interval of at least one day, whose description holds no
    housing keyword; when categories are selected, its category is one of
    them. *)
Theorem subscriptionData_entries (now : instant) (transactions : list Transaction)
    (selectedCategories : option (list string)) (s : SubscriptionItem) :
  In s (subscriptionData now transactions selectedCategories) ->
  ruleId (sub_entry s) = None /\
  2 <= occurrences (sub_entry s) /\
  1 <= intervalDays (sub_entry s) /\
  isHousing (sub_entry s) = false /\
  monthlyEquivalent s
  = (amount (sub_entry s) * multiplier (frequency (sub_entry s)))%Q /\
  (forall c cs, selectedCategories = Some (c :: cs) ->
     In (category (sub_entry s)) (c :: cs)).
Proof.
  intros Hs.
  assert (Hbase : In s (identifySubscriptions
                          (detectRecurringTransactions now (filter isDebit transactions) 2 []))).
  { unfold subscriptionData in Hs. cbv zeta in Hs.
    destruct selectedCategories as [[|c cs]|]; auto.
    apply filter_In in Hs. tauto. }
  unfold identifySubscriptions in Hbase.
  apply in_map_iff in Hbase as (rt & <- & Hrt). apply filter_In in Hrt as [Hin Hh].
  apply negb_true_iff in Hh. cbn [sub_entry monthlyEquivalent].
  apply detect_without_rules_In in Hin as (k & txns & _ & Ha).
  pose proof Ha as Ha'. invert_analyzeGroup Ha'. cbn [ruleId occurrences intervalDays].
  repeat split; auto.
  - apply Math_round_ge_1. now apply (consistent_mean_ge_1 (intervalsOf txns)).
  - intros c cs ->. unfold subscriptionData in Hs. cbv zeta in Hs.
    apply filter_In in Hs as [_ Hs]. cbn [sub_entry] in Hs.
    apply existsb_exists in Hs as (x & Hx & E). apply String.eqb_eq in E. now rewrite E.
Qed.

Lemma subscriptionData_entries_witness :
  exists s, In s (subscriptionData Sample.now Sample.gym None) /\
            2 <= occurrences (sub_entry s).
Proof.
  pose (s := hd {| sub_entry := Sample.monthly100; monthlyEquivalent := 0 |}
                (subscriptionData Sample.now Sample.gym None)).
  assert (Hs : In s (subscriptionData Sample.now Sample.gym None))
    by (vm_compute; left; reflexivity).
  exists s. split; [exact Hs|].
  now destruct (subscriptionData_entries _ _ _ _ Hs) as (_ & H & _).
Defined.

(** ** Where the debug view and the detector part *)

(** With a threshold of 1 or less, a description seen once, on a
    transaction that is not in the past, is reported as detected by the
    debug view, while the detector emits nothing for it. *)
Theorem debug_view_single_transaction (now : instant) (t : Transaction)
    (minOccurrences : Z) :
  minOccurrences <= 1 ->
  differenceInDays now (tradeDate t) <= 0 ->
  detectRecurringTransactions now [t] minOccurrences [] = [] /\
  exists g, debugRecurringDetection now [t] minOccurrences = [g] /\
            dg_reason g = DetectedAsRecurring /\ dg_transactions g = [t].
Proof.
  intros Hmin Hdays. split.
  - unfold detectRecurringTransactions. cbv zeta.
    change (detectManualRecurringTransactions now [t] []) with (@nil RecurringTransaction).
    rewrite remainingTransactions_no_manual.
    assert (Hnone : analyzeGroup now minOccurrences [t] = None).
    { unfold analyzeGroup. destruct (_ <? _); reflexivity. }
    unfold automaticResults, descriptionGroups. cbn [stableSort insertSorted fold_left
      pushToGroup flat_map snd filter app]. now rewrite Hnone.
  - unfold debugRecurringDetection. cbv zeta. cbn.
    assert (E : (1 <? minOccurrences) = false) by (apply Z.ltb_ge; lia).
    rewrite E.
    assert (Hs : Qlt_bool (0 * 2) (inject_Z (differenceInDays now (tradeDate t))) = false).
    { unfold Qlt_bool. apply negb_false_iff, Qle_bool_iff.
      rewrite Zle_Qle in Hdays. change (inject_Z 0) with 0%Q in Hdays. lra. }
    eexists. split; [reflexivity|]. cbn. split; [|reflexivity].
    now rewrite Hs.
Qed.

Lemma debug_view_single_transaction_witness :
  detectRecurringTransactions Sample.now
    [Sample.tx "x" (isoDate 2024 2 20) "Kiosk" 5 DEBIT] 1 [] = [].
Proof.
  apply (debug_view_single_transaction Sample.now
           (Sample.tx "x" (isoDate 2024 2 20) "Kiosk" 5 DEBIT) 1).
  - lia.
  - vm_compute. discriminate.
Defined.
